(** * ODEIntegrationComp: explicit-shooting propagation with sensitivities

    A shallow embedding of
    [dymos/transcriptions/explicit_shooting/ode_integration_comp.py].

    - NumPy arrays are held the way NumPy holds them: a shape and a flat,
      row-major buffer.
    - Python dictionaries keyed by names are [gmap string _]; the option
      catalogs, whose declaration order matters, are association lists.
    - Floating-point scalars are an abstract type [F] with the operations
      the source applies to them; no algebraic law is assumed of them.
    - Exceptions are the [Raise] branch of [res]; calls to the external
      collaborators are recorded in an event log. *)

From Stdlib Require Import ZArith List Lia QArith Qreduction.
From stdpp Require Import base option list gmap strings.

Open Scope Z_scope.
Open Scope nat_scope.

(** ** Exceptions *)

Inductive exn : Type :=
| RuntimeError
| ValueError
| IndexError
| TypeError
| KeyError
| AttributeError.

Inductive res (A : Type) : Type :=
| Ok (a : A)
| Raise (e : exn).
Arguments Ok {A} a.
Arguments Raise {A} e.

#[export] Instance res_ret : MRet res := fun _ a => Ok a.
#[export] Instance res_bind : MBind res := fun _ _ k m =>
  match m with
  | Ok a => k a
  | Raise e => Raise e
  end.

Definition is_ok {A} (m : res A) : bool :=
  match m with Ok _ => true | Raise _ => false end.

(** ** Index arithmetic of Python slices *)

(** [a:b] as stored by [np.s_]. *)
Definition slice : Type := nat * nat.

(** Python's normalisation of one slice bound against a length: negative
    bounds count from the end, and everything is clipped to [0, len]. *)
Definition norm_index (len : nat) (i : Z) : nat :=
  if (i <? 0)%Z then Z.to_nat (Z.max 0 (Z.of_nat len + i))
  else Z.to_nat (Z.min i (Z.of_nat len)).

(** The half-open range of positions selected by [start:stop]. *)
Definition slice_bounds (len : nat) (start stop : option Z) : nat * nat :=
  let s := match start with Some i => norm_index len i | None => 0 end in
  let e := match stop with Some i => norm_index len i | None => len end in
  (s, Nat.max s e).

(** [np.prod(shape, dtype=int)]. *)
Definition np_prod (shape : list nat) : nat := foldr Nat.mul 1 shape.

(** Python's [sum] over a list of node counts. *)
Definition py_sum (l : list nat) : nat := foldr Nat.add 0 l.

(** ** The option catalogs *)

(** The entries of an options dictionary that the component reads. *)
Record OptionsDictionary : Type := {
  shape : list nat;
  order : nat      (* polynomial controls only *)
}.

(** A Python [dict] of options in insertion order; its keys are distinct. *)
Definition catalog : Type := list (string * OptionsDictionary).

Definition names (cat : catalog) : list string := cat.*1.

(** The loop shared by every configure method:
<<
      for name, options in cat.items():
          size = size_of(options)
          idxs[name] = np.s_[start:start + size]
          start += size
>>
    It returns the final [start] and the updated dictionary. *)
Definition assign_slices (size_of : OptionsDictionary → nat) (cat : catalog)
    (start : nat) (idxs : gmap string slice) : nat * gmap string slice :=
  foldl (fun acc item =>
           let size := size_of item.2 in
           (acc.1 + size, <[item.1 := (acc.1, acc.1 + size)]> acc.2))
        (start, idxs) cat.

Definition state_size (options : OptionsDictionary) : nat :=
  np_prod (shape options).

Definition param_size (options : OptionsDictionary) : nat :=
  np_prod (shape options).

(** [np.prod((num_input_nodes,) + options['shape'], dtype=int)]. *)
Definition control_param_size (num_input_nodes : nat)
    (options : OptionsDictionary) : nat :=
  np_prod (num_input_nodes :: shape options).

Definition polynomial_control_param_size (options : OptionsDictionary) : nat :=
  np_prod ((order options + 1) :: shape options).

(** [_configure_states]: [(x_size, state_idxs)]. *)
Definition _configure_states (state_options : catalog)
    : nat * gmap string slice :=
  assign_slices state_size state_options 0 ∅.

(** [_configure_parameters]: [(p_size, parameter_idxs)]. *)
Definition _configure_parameters (parameter_options : catalog)
    : nat * gmap string slice :=
  assign_slices param_size parameter_options 0 ∅.

(** [_configure_controls]: [u_size]; this method stores no index. *)
Definition _configure_controls (num_control_input_nodes : nat)
    (control_options : catalog) : nat :=
  foldl (fun u_size item =>
           u_size + control_param_size num_control_input_nodes item.2)
        0 control_options.

(** [_configure_polynomial_controls]: [up_size]. *)
Definition _configure_polynomial_controls
    (polynomial_control_options : catalog) : nat :=
  foldl (fun up_size item => up_size + polynomial_control_param_size item.2)
        0 polynomial_control_options.

(** ** Names of the component's inputs and outputs *)

Definition state_input_name (n : string) : string := "states:" +:+ n.
Definition state_output_name (n : string) : string := "states_out:" +:+ n.
Definition param_input_name (n : string) : string := "parameters:" +:+ n.
Definition control_input_name (n : string) : string := "controls:" +:+ n.
Definition polynomial_control_input_name (n : string) : string :=
  "polynomial_controls:" +:+ n.

(** ** The column map of the flattened [dx_dz] block *)

(** [np.s_[:, a:b]] and [np.s_[:, a]]. *)
Inductive colsel : Type :=
| ColRange (a b : nat)
| ColSingle (a : nat).

(** The columns a selector addresses, as a half-open range. *)
Definition colsel_range (c : colsel) : slice :=
  match c with
  | ColRange a b => (a, b)
  | ColSingle a => (a, a + 1)
  end.

(** One of the four inner loops of [_build_dx_dz_idxs]:
<<
      for name, options in cat.items():
          input_name = input_names[name]
          input_size = size_of(options)
          idxs = np.s_[:, dx_dz_idx: dx_dz_idx + output_state_size * input_size]
          self._partial_dx_dz_idxs[output_name, input_name] = idxs
          dx_dz_idx += output_state_size * input_size
>> *)
Definition dx_dz_wrt_loop (output_name : string) (output_state_size : nat)
    (input_name : string → string) (size_of : OptionsDictionary → nat)
    (cat : catalog) (acc : nat * gmap (string * string) colsel)
    : nat * gmap (string * string) colsel :=
  foldl (fun acc item =>
           let input_size := size_of item.2 in
           let w := output_state_size * input_size in
           (acc.1 + w,
            <[(output_name, input_name item.1) := ColRange acc.1 (acc.1 + w)]>
              acc.2))
        acc cat.

Section Layout.

Variables (state_options parameter_options control_options
           polynomial_control_options : catalog).
(** [self._input_grid_data.subset_num_nodes['control_input']]. *)
Variable num_control_input_nodes : nat.

(** The body of the outer loop of [_build_dx_dz_idxs], for one output
    state. *)
Definition dx_dz_output_step (acc : nat * gmap (string * string) colsel)
    (item : string * OptionsDictionary)
    : nat * gmap (string * string) colsel :=
  let output_name := state_output_name item.1 in
  let output_state_size := np_prod (shape item.2) in
  (* column indices wrt each initial state value *)
  let acc := dx_dz_wrt_loop output_name output_state_size state_input_name
               (fun o => np_prod (shape o)) state_options acc in
  (* column indices wrt t_initial and t_duration *)
  let dx_dz_idx := acc.1 in
  let m := <[(output_name, "t_initial") := ColSingle dx_dz_idx]> acc.2 in
  let m := <[(output_name, "t_duration") := ColSingle (dx_dz_idx + 1)]> m in
  let acc := (dx_dz_idx + 2, m) in
  (* column indices wrt the parameters *)
  let acc := dx_dz_wrt_loop output_name output_state_size param_input_name
               (fun o => np_prod (shape o)) parameter_options acc in
  (* column indices wrt the controls *)
  let acc := dx_dz_wrt_loop output_name output_state_size control_input_name
               (fun o => np_prod (shape o) * num_control_input_nodes)
               control_options acc in
  (* column indices wrt the polynomial controls *)
  dx_dz_wrt_loop output_name output_state_size polynomial_control_input_name
    (fun o => np_prod (shape o) * (order o + 1))
    polynomial_control_options acc.

(** [_build_dx_dz_idxs], together with the final value of its local
    counter [dx_dz_idx]. *)
Definition _build_dx_dz_idxs_counted
    : nat * gmap (string * string) colsel :=
  foldl dx_dz_output_step (0, ∅) state_options.

Definition _build_dx_dz_idxs : gmap (string * string) colsel :=
  _build_dx_dz_idxs_counted.2.

End Layout.

(** ** Tilings: the vocabulary of the layout properties *)

(** The slices of [l], in order, tile [[a, b)]: each starts where the
    previous one stopped, the first at [a], the last stops at [b]. *)
Fixpoint tiles (a : nat) (l : list slice) (b : nat) : Prop :=
  match l with
  | [] => a = b
  | s :: l => s.1 = a ∧ s.1 ≤ s.2 ∧ tiles s.2 l b
  end.

(** The slices the shared loop hands out, in catalog order. *)
Fixpoint slices_from (size_of : OptionsDictionary → nat) (cat : catalog)
    (start : nat) : list slice :=
  match cat with
  | [] => []
  | item :: cat =>
      (start, start + size_of item.2)
      :: slices_from size_of cat (start + size_of item.2)
  end.

(** The total size of a catalog. *)
Definition total_size (size_of : OptionsDictionary → nat) (cat : catalog)
    : nat :=
  py_sum (map (fun item => size_of item.2) cat).

(** The slices a dictionary holds for the names of a catalog, in catalog
    order; [None] if a name has no slice. *)
Definition named_slices (idxs : gmap string slice) (cat : catalog)
    : option (list slice) :=
  mapM (fun n => idxs !! n) (names cat).

(** ** Vocabulary of the column-map property *)



(** The assignments made by one inner loop of [_build_dx_dz_idxs], in
    order, started at column [idx]. *)
Fixpoint wrt_entries (output_name : string) (output_state_size : nat)
    (input_name : string → string) (size_of : OptionsDictionary → nat)
    (cat : catalog) (idx : nat) : list ((string * string) * colsel) :=
  match cat with
  | [] => []
  | item :: cat =>
      let w := output_state_size * size_of item.2 in
      ((output_name, input_name item.1), ColRange idx (idx + w))
      :: wrt_entries output_name output_state_size input_name size_of cat
           (idx + w)
  end.

(** Storing a list of assignments in a dictionary, in order. *)
Definition insert_all (m : gmap (string * string) colsel)
    (entries : list ((string * string) * colsel))
    : gmap (string * string) colsel :=
  foldl (fun m kv => <[kv.1 := kv.2]> m) m entries.

Section ColumnMap.

Variables (state_options parameter_options control_options
           polynomial_control_options : catalog).
Variable num_control_input_nodes : nat.

(** The sizes of the inputs as [_build_dx_dz_idxs] computes them. *)
Definition dx_dz_state_size (o : OptionsDictionary) : nat := np_prod (shape o).
Definition dx_dz_param_size (o : OptionsDictionary) : nat := np_prod (shape o).
Definition dx_dz_control_size (o : OptionsDictionary) : nat :=
  np_prod (shape o) * num_control_input_nodes.
Definition dx_dz_polynomial_control_size (o : OptionsDictionary) : nat :=
  np_prod (shape o) * (order o + 1).

(** The number of columns the map gives to one output state. *)
Definition output_width (item : string * OptionsDictionary) : nat :=
  np_prod (shape item.2)
  * (total_size dx_dz_state_size state_options
     + total_size dx_dz_param_size parameter_options
     + total_size dx_dz_control_size control_options
     + total_size dx_dz_polynomial_control_size polynomial_control_options)
  + 2.

(** The assignments made for one output state, in order, started at
    column [idx]. *)
Definition output_entries (item : string * OptionsDictionary) (idx : nat)
    : list ((string * string) * colsel) :=
  let output_name := state_output_name item.1 in
  let s_o := np_prod (shape item.2) in
  let idx1 := idx + s_o * total_size dx_dz_state_size state_options in
  let idx2 := idx1 + 2 in
  let idx3 := idx2 + s_o * total_size dx_dz_param_size parameter_options in
  let idx4 := idx3 + s_o * total_size dx_dz_control_size control_options in
  wrt_entries output_name s_o state_input_name dx_dz_state_size
    state_options idx
  ++ [((output_name, "t_initial"), ColSingle idx1);
      ((output_name, "t_duration"), ColSingle (idx1 + 1))]
  ++ wrt_entries output_name s_o param_input_name dx_dz_param_size
       parameter_options idx2
  ++ wrt_entries output_name s_o control_input_name dx_dz_control_size
       control_options idx3
  ++ wrt_entries output_name s_o polynomial_control_input_name
       dx_dz_polynomial_control_size polynomial_control_options idx4.

(** The assignments made for the listed output states, in order. *)
Fixpoint all_entries (outputs : catalog) (idx : nat)
    : list ((string * string) * colsel) :=
  match outputs with
  | [] => []
  | item :: outputs =>
      output_entries item idx ++ all_entries outputs (idx + output_width item)
  end.

(** The names of the inputs, in the order of their slices in [z]. *)
Definition z_input_names : list string :=
  map state_input_name (names state_options)
  ++ ["t_initial"; "t_duration"]
  ++ map param_input_name (names parameter_options)
  ++ map control_input_name (names control_options)
  ++ map polynomial_control_input_name (names polynomial_control_options).

(** The (output state, input quantity) pairs of the column map, in the
    order [_build_dx_dz_idxs] visits them. *)
Definition column_map_keys : list (string * string) :=
  flat_map (fun item => map (fun q => (state_output_name item.1, q))
                            z_input_names)
           state_options.

End ColumnMap.

(** * Arrays and the component, over an abstract scalar type *)

Section ODEIntegrationComp.

Context {F : Type} `{!EqDecision F}.

(** The float constants [0.], [1.], [0.5] and the float operations
    [+], [-], [*], [/] of the source. *)
Variables (fzero fone fhalf : F).
Variables (fadd fsub fmul fdiv : F → F → F).

(** ** NumPy arrays *)

(** A two-dimensional array: its shape and its row-major buffer. *)
Record ndarray : Type := {
  nd_shape : nat * nat;
  nd_data : list F
}.

Definition nrows (A : ndarray) : nat := (nd_shape A).1.
Definition ncols (A : ndarray) : nat := (nd_shape A).2.

(** The buffer has as many entries as the shape says. *)
Definition nd_wf (A : ndarray) : Prop :=
  length (nd_data A) = nrows A * ncols A.

(** The array of shape [(r, c)] whose entry [(i, j)] is [f i j]. *)
Definition tabulate (r c : nat) (f : nat → nat → F) : ndarray :=
  {| nd_shape := (r, c);
     nd_data := flat_map (fun i => map (f i) (seq 0 c)) (seq 0 r) |}.

(** Entry [(i, j)] of an array, for positions already known to be in
    range. *)
Definition nd_at (A : ndarray) (i j : nat) : F :=
  default fzero (nd_data A !! (i * ncols A + j)).

(** [np.zeros((r, c))] *)
Definition np_zeros (r c : nat) : ndarray :=
  {| nd_shape := (r, c); nd_data := replicate (r * c) fzero |}.

(** [np.zeros((n,))] *)
Definition np_zeros1 (n : nat) : list F := replicate n fzero.

(** [np.eye(n)] *)
Definition np_eye (n : nat) : ndarray :=
  tabulate n n (fun i j => if decide (i = j) then fone else fzero).

(** [A.ravel()] *)
Definition ravel (A : ndarray) : list F := nd_data A.

(** [v.reshape((r, c))] of a one-dimensional [v]. *)
Definition np_reshape (v : list F) (r c : nat) : res ndarray :=
  if decide (length v = r * c) then Ok {| nd_shape := (r, c); nd_data := v |}
  else Raise ValueError.

(** [v[start:stop]] of a one-dimensional [v]. *)
Definition np_slice {A} (v : list A) (start stop : option Z) : list A :=
  let '(s, e) := slice_bounds (length v) start stop in
  take (e - s) (drop s v).

(** [v[i]] *)
Definition np_item (v : list F) (i : nat) : res F :=
  match v !! i with Some x => Ok x | None => Raise IndexError end.

(** [v[a:b] = w]: [w] has the length of the target or is broadcast from
    length one. *)
Definition np_assign_slice (v : list F) (s : slice) (w : list F)
    : res (list F) :=
  let '(a, b) :=
    slice_bounds (length v) (Some (Z.of_nat s.1)) (Some (Z.of_nat s.2)) in
  if decide (length w = b - a) then Ok (take a v ++ w ++ drop b v)
  else match w with
       | [c] => Ok (take a v ++ replicate (b - a) c ++ drop b v)
       | _ => Raise ValueError
       end.

(** [v[i] = x] *)
Definition np_set_item (v : list F) (i : nat) (x : F) : res (list F) :=
  if decide (i < length v) then Ok (<[i := x]> v) else Raise IndexError.

(** [v[idxs]] with an index array. *)
Definition np_take (v : list F) (idxs : list nat) : res (list F) :=
  mapM (fun i => np_item v i) idxs.

(** [A[i, j] = x] *)
Definition nd_set (A : ndarray) (i j : nat) (x : F) : res ndarray :=
  if decide (i < nrows A ∧ j < ncols A) then
    Ok {| nd_shape := nd_shape A;
          nd_data := <[i * ncols A + j := x]> (nd_data A) |}
  else Raise IndexError.

(** [A[:, start:stop] = B], for [B] of exactly the target's shape (the
    only case the source produces; broadcasting of a smaller [B] is not
    modelled and reported as the shape error). *)
Definition nd_assign_cols (A : ndarray) (start stop : option Z) (B : ndarray)
    : res ndarray :=
  let '(a, b) := slice_bounds (ncols A) start stop in
  if decide (nd_shape B = (nrows A, b - a)) then
    Ok (tabulate (nrows A) (ncols A)
          (fun i j => if decide (a ≤ j < b) then nd_at B i (j - a)
                      else nd_at A i j))
  else Raise ValueError.

(** [A[:, start:stop]] *)
Definition nd_cols (A : ndarray) (start stop : option Z) : ndarray :=
  let '(a, b) := slice_bounds (ncols A) start stop in
  tabulate (nrows A) (b - a) (fun i j => nd_at A i (a + j)).

(** [A[:, j]] *)
Definition nd_col (A : ndarray) (j : nat) : res (list F) :=
  if decide (j < ncols A) then Ok (map (fun i => nd_at A i j) (seq 0 (nrows A)))
  else Raise IndexError.

(** [A[-1, :]] *)
Definition nd_last_row (A : ndarray) : res (list F) :=
  if decide (0 < nrows A) then
    Ok (map (fun j => nd_at A (nrows A - 1) j) (seq 0 (ncols A)))
  else Raise IndexError.

(** [A[r0:r1, :] = B], with NumPy's broadcasting of a one-row or
    one-column [B]. *)
Definition nd_assign_rows (A : ndarray) (r0 r1 : nat) (B : ndarray)
    : res ndarray :=
  let '(a, b) :=
    slice_bounds (nrows A) (Some (Z.of_nat r0)) (Some (Z.of_nat r1)) in
  if decide ((nrows B = b - a ∨ nrows B = 1)
             ∧ (ncols B = ncols A ∨ ncols B = 1)) then
    Ok (tabulate (nrows A) (ncols A)
          (fun i j =>
             if decide (a ≤ i < b) then
               nd_at B (if decide (nrows B = 1) then 0 else i - a)
                       (if decide (ncols B = 1) then 0 else j)
             else nd_at A i j))
  else Raise ValueError.

(** [A[r0:r1, 0] = v], with broadcasting of a one-element [v]. *)
Definition nd_assign_col0 (A : ndarray) (r0 r1 : nat) (v : list F)
    : res ndarray :=
  let '(a, b) :=
    slice_bounds (nrows A) (Some (Z.of_nat r0)) (Some (Z.of_nat r1)) in
  if decide (0 < ncols A) then
    if decide (length v = b - a ∨ length v = 1) then
      Ok (tabulate (nrows A) (ncols A)
            (fun i j =>
               if decide (a ≤ i < b ∧ j = 0) then
                 default fzero
                   (v !! (if decide (length v = 1) then 0 else i - a))
               else nd_at A i j))
    else Raise ValueError
  else Raise IndexError.

(** The sum of products of a row of [A] and a column of [B]. *)
Definition dot (A B : ndarray) (i j : nat) : F :=
  foldl (fun acc k => fadd acc (fmul (nd_at A i k) (nd_at B k j)))
        fzero (seq 0 (ncols A)).

(** [A @ B] *)
Definition matmul (A B : ndarray) : res ndarray :=
  if decide (ncols A = nrows B) then
    Ok (tabulate (nrows A) (ncols B) (dot A B))
  else Raise ValueError.

(** [A + B] for arrays of one shape (the only case the source produces;
    broadcasting is not modelled and reported as the shape error). *)
Definition nd_add (A B : ndarray) : res ndarray :=
  if decide (nd_shape A = nd_shape B) then
    Ok {| nd_shape := nd_shape A;
          nd_data := zip_with fadd (nd_data A) (nd_data B) |}
  else Raise ValueError.

(** ** Grid data and configuration *)

(** The attributes of a [GridData] object that the component reads.  The
    class itself lives outside this module. *)
Record GridData : Type := {
  num_segments : nat;
  segment_ends : list F;
  node_ptau : list F;
  segment_indices : list (nat * nat);
  subset_num_nodes_control_input : nat;       (* subset_num_nodes['control_input'] *)
  subset_node_indices_control_input : list nat; (* subset_node_indices['control_input'] *)
  subset_num_nodes_all : nat;                 (* subset_num_nodes['all'] *)
  subset_num_nodes_per_segment_all : list nat (* subset_num_nodes_per_segment['all'] *)
}.

(** The constructor arguments and declared options of the component. *)
Record Config : Type := {
  time_name : string;                         (* time_options['name'] *)
  state_options : catalog;
  parameter_options : catalog;
  control_options : catalog;
  polynomial_control_options : catalog;
  input_grid_data : GridData;
  output_grid_data : option GridData;         (* None: use the input grid *)
  standalone_mode : bool;
  propagate_derivs_option : bool              (* options['propagate_derivs'] *)
}.

(** [self._input_grid_data] and [self._output_grid_data] as [__init__]
    sets them. *)
Definition _input_grid_data (cfg : Config) : GridData := input_grid_data cfg.
Definition _output_grid_data (cfg : Config) : GridData :=
  default (input_grid_data cfg) (output_grid_data cfg).

(** The attributes that [_configure_storage] creates. *)
Record Storage : Type := {
  _state_idxs_in_z : gmap string slice;
  _parameter_idxs_in_z : gmap string slice;
  _parameter_idxs_in_theta : gmap string slice;
  _control_idxs_in_z : gmap string slice;
  _control_idxs_in_theta : gmap string slice;
  _polynomial_control_idxs_in_z : gmap string slice;
  _polynomial_control_idxs_in_theta : gmap string slice;
  _nnps : list nat;
  _t_out : ndarray;
  _x_out : ndarray;
  _dx_dz_out : option ndarray;
  _dt_dz_out : option ndarray;
  _partial_dx_dz_idxs : gmap (string * string) colsel;
  _dx_dz_0 : ndarray;
  _dt_dz_0 : ndarray;
  _dtheta_dz : ndarray
}.

(** The component instance.  [storage] is [None] until
    [_configure_storage] has run: the attributes do not exist before. *)
Record Comp : Type := {
  config : Config;
  _inputs_cache : string;
  _num_control_input_nodes : nat;
  _num_output_rows : nat;
  x_size : nat;
  state_idxs : gmap string slice;
  p_size : nat;
  parameter_idxs : gmap string slice;
  u_size : nat;
  up_size : nat;
  theta_size : nat;
  z_size : nat;
  storage : option Storage
}.

(** [__init__] *)
Definition __init__ (cfg : Config) : Comp :=
  {| config := cfg;
     _inputs_cache := "";
     _num_control_input_nodes :=
       subset_num_nodes_control_input (_input_grid_data cfg);
     _num_output_rows := 0;
     x_size := 0;
     state_idxs := ∅;
     p_size := 0;
     parameter_idxs := ∅;
     u_size := 0;
     up_size := 0;
     theta_size := 0;
     z_size := 0;
     storage := None |}.

(** [_configure_storage] *)
Definition _configure_storage (self : Comp) : res Comp :=
  let cfg := config self in
  let igd := _input_grid_data cfg in
  let ogd := _output_grid_data cfg in
  control_input_node_ptau ←
    np_take (node_ptau igd) (subset_node_indices_control_input igd);
  (* allocate the ODE parameter vector *)
  let theta_size := 2 + p_size self + u_size self + up_size self in
  (* allocate the integration parameter vector *)
  let z_size := x_size self + theta_size in
  let start_z := 0 in
  let r :=
    assign_slices state_size (state_options cfg) start_z ∅ in
  let start_z := r.1 in
  let state_idxs_in_z := r.2 in
  (* add 2 to account for t_initial, t_duration *)
  let start_z := x_size self + 2 in
  let start_theta := 2 in
  let r :=
    assign_slices param_size (parameter_options cfg) start_z ∅ in
  let start_z := r.1 in
  let parameter_idxs_in_z := r.2 in
  let r :=
    assign_slices param_size (parameter_options cfg) start_theta ∅ in
  let start_theta := r.1 in
  let parameter_idxs_in_theta := r.2 in
  let n := length control_input_node_ptau in
  let r :=
    assign_slices (control_param_size n) (control_options cfg) start_z ∅ in
  let start_z := r.1 in
  let control_idxs_in_z := r.2 in
  let r :=
    assign_slices (control_param_size n) (control_options cfg) start_theta ∅ in
  let start_theta := r.1 in
  let control_idxs_in_theta := r.2 in
  let r :=
    assign_slices polynomial_control_param_size
    (polynomial_control_options cfg) start_z ∅ in
  let start_z := r.1 in
  let polynomial_control_idxs_in_z := r.2 in
  let r :=
    assign_slices polynomial_control_param_size
    (polynomial_control_options cfg) start_theta ∅ in
  let start_theta := r.1 in
  let polynomial_control_idxs_in_theta := r.2 in
  (* caches for the integrated quantities *)
  let nnps := subset_num_nodes_per_segment_all ogd in
  let nn := py_sum nnps in
  let t_out := np_zeros nn 1 in
  let x_out := np_zeros nn (x_size self) in
  let dx_dz_out :=
    if propagate_derivs_option cfg
    then Some (np_zeros nn (x_size self * z_size)) else None in
  let dt_dz_out :=
    if propagate_derivs_option cfg
    then Some (np_zeros nn z_size) else None in
  (* the map for obtaining the partials from dx_dz *)
  let partial_dx_dz_idxs :=
    _build_dx_dz_idxs (state_options cfg) (parameter_options cfg)
      (control_options cfg) (polynomial_control_options cfg)
      (subset_num_nodes_control_input igd) in
  (* the initial values for dx_dz and dt_dz *)
  dx_dz_0 ← nd_assign_cols (np_zeros (x_size self) z_size)
               None (Some (Z.of_nat (x_size self))) (np_eye (x_size self));
  dt_dz_0 ← nd_set (np_zeros 1 z_size) 0 (x_size self) fone;
  dtheta_dz ← nd_assign_cols (np_zeros theta_size z_size)
                 (Some (- Z.of_nat theta_size)%Z) None (np_eye theta_size);
  Ok {| config := cfg;
        _inputs_cache := _inputs_cache self;
        _num_control_input_nodes := _num_control_input_nodes self;
        _num_output_rows := _num_output_rows self;
        x_size := x_size self;
        state_idxs := state_idxs self;
        p_size := p_size self;
        parameter_idxs := parameter_idxs self;
        u_size := u_size self;
        up_size := up_size self;
        theta_size := theta_size;
        z_size := z_size;
        storage := Some
          {| _state_idxs_in_z := state_idxs_in_z;
             _parameter_idxs_in_z := parameter_idxs_in_z;
             _parameter_idxs_in_theta := parameter_idxs_in_theta;
             _control_idxs_in_z := control_idxs_in_z;
             _control_idxs_in_theta := control_idxs_in_theta;
             _polynomial_control_idxs_in_z := polynomial_control_idxs_in_z;
             _polynomial_control_idxs_in_theta :=
               polynomial_control_idxs_in_theta;
             _nnps := nnps;
             _t_out := t_out;
             _x_out := x_out;
             _dx_dz_out := dx_dz_out;
             _dt_dz_out := dt_dz_out;
             _partial_dx_dz_idxs := partial_dx_dz_idxs;
             _dx_dz_0 := dx_dz_0;
             _dt_dz_0 := dt_dz_0;
             _dtheta_dz := dtheta_dz |} |}.

(** The four size-and-index configure methods, in the order in which
    [setup] runs them, followed by [_configure_storage]. *)
Definition configure (self : Comp) : res Comp :=
  let cfg := config self in
  let r :=
    _configure_parameters (parameter_options cfg) in
  let p_size := r.1 in
  let parameter_idxs := r.2 in
  let u_size :=
    _configure_controls (_num_control_input_nodes self) (control_options cfg) in
  let up_size :=
    _configure_polynomial_controls (polynomial_control_options cfg) in
  let r :=
    _configure_states (state_options cfg) in
  let x_size := r.1 in
  let state_idxs := r.2 in
  _configure_storage
    {| config := cfg;
       _inputs_cache := _inputs_cache self;
       _num_control_input_nodes := _num_control_input_nodes self;
       _num_output_rows := _num_output_rows self;
       x_size := x_size;
       state_idxs := state_idxs;
       p_size := p_size;
       parameter_idxs := parameter_idxs;
       u_size := u_size;
       up_size := up_size;
       theta_size := theta_size self;
       z_size := z_size self;
       storage := storage self |}.

(** ** The external collaborators *)

(** [eval_ode] with both flags set, for the segment the evaluation group
    was last pointed at by [_set_segment_index]: the rates [f] and the
    Jacobians [f_x], [f_t], [f_theta].  It wraps the ODE evaluation
    sub-problem, a black box here. *)
Variable eval_ode : nat → ndarray → F → list F
                    → ndarray * ndarray * ndarray * ndarray.

(** The result of [scipy.integrate.solve_ivp]: [sol.t] and [sol.y.T]. *)
Record OdeResult : Type := {
  sol_t : list F;
  sol_y_T : ndarray
}.

(** [solve_ivp(fun, t_span=..., t_eval=..., y0=...)]; the method, step and
    tolerance options are fixed by the configuration and left implicit. *)
Variable solve_ivp : (F → list F → res (list F)) → F * F → list F → list F
                     → res OdeResult.

(** The component's input vector: one flat array per input name. *)
Definition Inputs : Type := gmap string (list F).

(** [inputs.get_hash()] *)
Variable get_hash : Inputs → string.

(** Modelled from the spec: [GridData.is_aligned_with], a method of the
    grid class, which is not part of this module.  The grid collaborator
    "validates that an input grid and output grid share identical segment
    boundaries". *)
Definition is_aligned_with (igd ogd : GridData) : bool :=
  bool_decide (segment_ends igd = segment_ends ogd).

(** ** The augmented dynamics *)

(** [_f_augmented], for the segment index last set on the evaluation
    group. *)
Definition _f_augmented (self : Comp) (seg : nat)
    (t : F) (y : list F) (theta : list F) (dtheta_dz : ndarray)
    : res (list F) :=
  let n_x := x_size self in
  let n_theta := theta_size self in
  let n_z := n_x + n_theta in
  x ← np_reshape (np_slice y None (Some (Z.of_nat n_x))) 1 n_x;
  td ← np_item theta 1;
  dx_dz ← np_reshape (np_slice y (Some (Z.of_nat n_x))
                        (Some (Z.of_nat (n_x + n_x * n_z)))) n_x n_z;
  dt_dz ← np_reshape (np_slice y (Some (- Z.of_nat n_z)%Z) None) 1 n_z;
  let '(x_dot, f_x, f_t, f_theta) := eval_ode seg x t theta in
  dh_dz ← nd_set (np_zeros 1 n_z) 0 (n_x + 1) (fdiv fone td);
  let dt_dz_dot := dh_dz in
  a ← matmul f_x dx_dz;
  b ← matmul f_t dt_dz;
  c ← matmul f_theta dtheta_dz;
  d ← matmul x_dot dt_dz_dot;
  ab ← nd_add a b;
  abc ← nd_add ab c;
  dx_dz_dot ← nd_add abc d;
  Ok (ravel x_dot ++ ravel dx_dz_dot ++ ravel dt_dz_dot).

(** [_f_primal]; the solver hands it the one-dimensional state, which
    [eval_ode] reads as a single row. *)
Definition _f_primal (self : Comp) (seg : nat) (t : F) (x : list F)
    (theta : list F) : res (list F) :=
  x ← np_reshape x 1 (x_size self);
  let '(x_dot, _, _, _) := eval_ode seg x t theta in
  Ok (ravel x_dot).

(** ** Events and the monad of the stateful methods *)

(** One call of the IVP solver. *)
Record SolverCall : Type := {
  sc_segment : nat;              (* the index given to _set_segment_index *)
  sc_augmented : bool;           (* fun is _f_augmented rather than _f_primal *)
  sc_t_span : F * F;
  sc_t_eval : list F;
  sc_y0 : list F;
  sc_theta : list F;             (* args[0] *)
  sc_dtheta_dz : option ndarray; (* args[1], for _f_augmented *)
  sc_result : res OdeResult
}.

Inductive Event : Type :=
| EvIsAlignedWith (aligned : bool)  (* a call of is_aligned_with *)
| EvPropagate (derivs : bool)       (* _propagate entered *)
| EvSolveIvp (call : SolverCall).   (* a call of solve_ivp *)

(** A computation that logs its calls to collaborators and may raise. *)
Definition M (A : Type) : Type := list Event * res A.

#[local] Instance M_ret : MRet M := fun _ a => ([], Ok a).
#[local] Instance M_bind : MBind M := fun _ _ k m =>
  match m.2 with
  | Ok a => (m.1 ++ (k a).1, (k a).2)
  | Raise e => (m.1, Raise e)
  end.

Definition lift {A} (m : res A) : M A := ([], m).
Definition emit (e : Event) : M unit := ([e], Ok tt).
Definition raise {A} (e : exn) : M A := ([], Raise e).

(** The solver calls of a log, in order. *)
Definition solver_calls (log : list Event) : list SolverCall :=
  omap (fun e => match e with EvSolveIvp c => Some c | _ => None end) log.

(** The integration passes of a log: one entry per call of [_propagate]. *)
Definition propagate_calls (log : list Event) : list bool :=
  omap (fun e => match e with EvPropagate d => Some d | _ => None end) log.

(** The number of integration passes in a log. *)
Definition propagations (log : list Event) : nat :=
  length (propagate_calls log).

(** The number of grid-alignment checks in a log. *)
Definition alignment_checks (log : list Event) : nat :=
  length (omap (fun e => match e with
                         | EvIsAlignedWith a => Some a | _ => None end) log).

(** ** Propagation *)

(** [inputs[name]] *)
Definition get_input (inputs : Inputs) (name : string) : res (list F) :=
  match inputs !! name with Some v => Ok v | None => Raise KeyError end.

(** [d[k]] on a dictionary. *)
Definition get_key `{Countable K} {V} (d : gmap K V) (k : K) : res V :=
  match d !! k with Some v => Ok v | None => Raise KeyError end.

(** The value of a one-element array where a scalar is required. *)
Definition as_scalar (v : list F) : res F :=
  match v with [x] => Ok x | _ => Raise ValueError end.

(** [self.<attribute>] for an attribute made by [_configure_storage]. *)
Definition get_storage (self : Comp) : res Storage :=
  match storage self with Some st => Ok st | None => Raise AttributeError end.

(** The loops that extract the input values:
<<
      for name in cat:
          val = inputs[input_names[name]]
          v[idxs[name]] = val
>> *)
Definition unpack (idxs : gmap string slice) (input_name : string → string)
    (inputs : Inputs) (cat : catalog) (v : list F) : res (list F) :=
  foldl (fun acc item =>
           v ← acc;
           val ← get_input inputs (input_name item.1);
           s ← get_key idxs item.1;
           np_assign_slice v s val)
        (Ok v) cat.

(** The variables that the segment loop of [_propagate] updates. *)
Record LoopState : Type := {
  ls_y0 : list F;
  ls_row_seg_i : nat;
  ls_x_out : ndarray;
  ls_t_out : ndarray;
  ls_dx_dz_out : option ndarray;
  ls_dt_dz_out : option ndarray
}.

(** A call of [solve_ivp], logged with its arguments and result. *)
Definition call_solve_ivp (seg : nat) (augmented : bool)
    (fn : F → list F → res (list F)) (t_span : F * F) (t_eval y0 theta : list F)
    (dtheta_dz : option ndarray) : M OdeResult :=
  let r := solve_ivp fn t_span t_eval y0 in
  ([EvSolveIvp {| sc_segment := seg; sc_augmented := augmented;
                  sc_t_span := t_span; sc_t_eval := t_eval; sc_y0 := y0;
                  sc_theta := theta; sc_dtheta_dz := dtheta_dz;
                  sc_result := r |}], r).

(** [t_initial + 0.5 * (ptau + 1) * t_duration] *)
Definition node_time (t_initial t_duration ptau : F) : F :=
  fadd t_initial (fmul (fmul fhalf (fadd ptau fone)) t_duration).

(** [buf[r0:r1, :] = B] on a buffer that is an array. *)
Definition assign_rows_opt (buf : option ndarray) (r0 r1 : nat) (B : ndarray)
    : res (option ndarray) :=
  match buf with
  | Some A => A' ← nd_assign_rows A r0 r1 B; Ok (Some A')
  | None => Raise TypeError
  end.

(** The body of the loop over the segments. *)
Definition propagate_segment (self : Comp) (st : Storage)
    (_propagate_derivs : bool) (t_initial t_duration : F) (theta : list F)
    (ls : LoopState) (i : nat) : M LoopState :=
  let ogd := _output_grid_data (config self) in
  let n_x := x_size self in
  let n_theta := theta_size self in
  let n_z := n_x + n_theta in
  let nnps := _nnps st in
  let row_seg_i := ls_row_seg_i ls in
  let y0 := ls_y0 ls in
  (* self._set_segment_index(i): the index is handed to eval_ode *)
  seg ← lift (match segment_indices ogd !! i with
              | Some seg => Ok seg | None => Raise IndexError end);
  let eval_nodes_ptau :=
    np_slice (node_ptau ogd) (Some (Z.of_nat seg.1)) (Some (Z.of_nat seg.2)) in
  let t_eval_seg := map (node_time t_initial t_duration) eval_nodes_ptau in
  t_first ← lift (match head t_eval_seg with
                  | Some t => Ok t | None => Raise IndexError end);
  t_last ← lift (match last t_eval_seg with
                 | Some t => Ok t | None => Raise IndexError end);
  let t_span_seg := (t_first, t_last) in
  sol ← (if _propagate_derivs then
           call_solve_ivp i true
             (fun t y => _f_augmented self i t y theta (_dtheta_dz st))
             t_span_seg t_eval_seg y0 theta (Some (_dtheta_dz st))
         else
           call_solve_ivp i false
             (fun t x => _f_primal self i t x theta)
             t_span_seg t_eval_seg y0 theta None);
  nnps_i ← lift (match nnps !! i with
                 | Some n => Ok n | None => Raise IndexError end);
  dx_dz_out ← lift (if _propagate_derivs then
                      assign_rows_opt (ls_dx_dz_out ls)
                        row_seg_i (row_seg_i + nnps_i)
                        (nd_cols (sol_y_T sol) (Some (Z.of_nat n_x))
                           (Some (Z.of_nat (n_x + n_x * n_z))))
                    else Ok (ls_dx_dz_out ls));
  dt_dz_out ← lift (if _propagate_derivs then
                      assign_rows_opt (ls_dt_dz_out ls)
                        row_seg_i (row_seg_i + nnps_i)
                        (nd_cols (sol_y_T sol) (Some (- Z.of_nat n_z)%Z) None)
                    else Ok (ls_dt_dz_out ls));
  (* save the solution at the output nodes *)
  x_out ← lift (nd_assign_rows (ls_x_out ls) row_seg_i (row_seg_i + nnps_i)
                  (nd_cols (sol_y_T sol) None (Some (Z.of_nat n_x))));
  t_out ← lift (nd_assign_col0 (ls_t_out ls) row_seg_i (row_seg_i + nnps_i)
                  (sol_t sol));
  (* the initial y for the next segment *)
  y0 ← lift (nd_last_row (sol_y_T sol));
  mret {| ls_y0 := y0;
          ls_row_seg_i := row_seg_i + nnps_i;
          ls_x_out := x_out;
          ls_t_out := t_out;
          ls_dx_dz_out := dx_dz_out;
          ls_dt_dz_out := dt_dz_out |}.

(** [for i in range(...)], over the listed indices. *)
Fixpoint propagate_segments (self : Comp) (st : Storage)
    (_propagate_derivs : bool) (t_initial t_duration : F) (theta : list F)
    (ls : LoopState) (segs : list nat) : M LoopState :=
  match segs with
  | [] => mret ls
  | i :: segs =>
      ls ← propagate_segment self st _propagate_derivs t_initial t_duration
             theta ls i;
      propagate_segments self st _propagate_derivs t_initial t_duration
        theta ls segs
  end.

(** The extraction of [x0] and [theta] from the inputs, with the scalar
    values of [t_initial] and [t_duration]. *)
Definition extract_inputs (self : Comp) (st : Storage) (inputs : Inputs)
    : res (list F * list F * F * F) :=
  let cfg := config self in
  let x0 := np_zeros1 (x_size self) in
  let theta := np_zeros1 (theta_size self) in
  x0 ← unpack (state_idxs self) state_input_name inputs (state_options cfg) x0;
  t_initial ← get_input inputs "t_initial" ≫= as_scalar;
  theta ← np_set_item theta 0 t_initial;
  t_duration ← get_input inputs "t_duration" ≫= as_scalar;
  theta ← np_set_item theta 1 t_duration;
  theta ← unpack (_parameter_idxs_in_theta st) param_input_name inputs
            (parameter_options cfg) theta;
  theta ← unpack (_control_idxs_in_theta st) control_input_name inputs
            (control_options cfg) theta;
  theta ← unpack (_polynomial_control_idxs_in_theta st)
            polynomial_control_input_name inputs
            (polynomial_control_options cfg) theta;
  Ok (x0, theta, t_initial, t_duration).

(** The initial value of the propagated vector. *)
Definition initial_y0 (st : Storage) (_propagate_derivs : bool) (x0 : list F)
    : list F :=
  if _propagate_derivs then x0 ++ ravel (_dx_dz_0 st) ++ ravel (_dt_dz_0 st)
  else x0.

(** [_propagate] *)
Definition _propagate (self : Comp) (inputs : Inputs)
    (propagate_derivs : option bool)
    (x_out t_out dx_dz_out dt_dz_out : option ndarray)
    : M (ndarray * ndarray * option ndarray * option ndarray) :=
  let _propagate_derivs :=
    default (propagate_derivs_option (config self)) propagate_derivs in
  _ ← emit (EvPropagate _propagate_derivs);
  st ← lift (get_storage self);
  let ogd := _output_grid_data (config self) in
  let nn := py_sum (_nnps st) in
  let x_out := default (np_zeros nn (x_size self)) x_out in
  let t_out := default (np_zeros nn 1) t_out in
  (* extract the input values *)
  '(x0, theta, t_initial, t_duration) ← lift (extract_inputs self st inputs);
  let dx_dz_out :=
    if _propagate_derivs
    then Some (default (np_zeros nn (x_size self * z_size self)) dx_dz_out)
    else None in
  let dt_dz_out :=
    if _propagate_derivs
    then Some (default (np_zeros nn (z_size self)) dt_dz_out)
    else None in
  let y0 := initial_y0 st _propagate_derivs x0 in
  ls ← propagate_segments self st _propagate_derivs t_initial t_duration theta
         {| ls_y0 := y0; ls_row_seg_i := 0; ls_x_out := x_out;
            ls_t_out := t_out; ls_dx_dz_out := dx_dz_out;
            ls_dt_dz_out := dt_dz_out |}
         (seq 0 (num_segments ogd));
  mret (ls_x_out ls, ls_t_out ls, ls_dx_dz_out ls, ls_dt_dz_out ls).

(** ** The cache and the extraction of outputs and partials *)

(** What one guarded call of [_propagate] on the component's own buffers
    leaves in [self]: the buffers that were passed as arrays have been
    written in place, a buffer that is [None] stays [None], and
    [_inputs_cache] holds the new hash.  When an exception escapes, the
    caller receives no component back, so what a failed pass leaves in the
    buffers is not modelled. *)
Definition after_propagate (self : Comp) (st : Storage) (inputs_hash : string)
    (r : ndarray * ndarray * option ndarray * option ndarray) : Comp :=
  let '(x_out, t_out, dx_dz_out, dt_dz_out) := r in
  let keep (old new : option ndarray) : option ndarray :=
    match old with
    | Some a => Some (default a new)
    | None => None
    end in
  {| config := config self;
     _inputs_cache := inputs_hash;
     _num_control_input_nodes := _num_control_input_nodes self;
     _num_output_rows := _num_output_rows self;
     x_size := x_size self;
     state_idxs := state_idxs self;
     p_size := p_size self;
     parameter_idxs := parameter_idxs self;
     u_size := u_size self;
     up_size := up_size self;
     theta_size := theta_size self;
     z_size := z_size self;
     storage := Some
       {| _state_idxs_in_z := _state_idxs_in_z st;
          _parameter_idxs_in_z := _parameter_idxs_in_z st;
          _parameter_idxs_in_theta := _parameter_idxs_in_theta st;
          _control_idxs_in_z := _control_idxs_in_z st;
          _control_idxs_in_theta := _control_idxs_in_theta st;
          _polynomial_control_idxs_in_z := _polynomial_control_idxs_in_z st;
          _polynomial_control_idxs_in_theta :=
            _polynomial_control_idxs_in_theta st;
          _nnps := _nnps st;
          _t_out := t_out;
          _x_out := x_out;
          _dx_dz_out := keep (_dx_dz_out st) dx_dz_out;
          _dt_dz_out := keep (_dt_dz_out st) dt_dz_out;
          _partial_dx_dz_idxs := _partial_dx_dz_idxs st;
          _dx_dz_0 := _dx_dz_0 st;
          _dt_dz_0 := _dt_dz_0 st;
          _dtheta_dz := _dtheta_dz st |} |}.

(** The guarded propagation that opens [compute] and [compute_partials]:
<<
      inputs_hash = inputs.get_hash()
      if inputs_hash != self._inputs_cache:
          self._propagate(inputs=inputs, propagate_derivs=...,
                          x_out=self._x_out, t_out=self._t_out,
                          dx_dz_out=self._dx_dz_out, dt_dz_out=self._dt_dz_out)
          self._inputs_cache = inputs_hash
>> *)
Definition propagate_if_changed (self : Comp) (inputs : Inputs)
    (propagate_derivs : bool) : M Comp :=
  let inputs_hash := get_hash inputs in
  if decide (inputs_hash ≠ _inputs_cache self) then
    st ← lift (get_storage self);
    r ← _propagate self inputs (Some propagate_derivs)
          (Some (_x_out st)) (Some (_t_out st)) (_dx_dz_out st) (_dt_dz_out st);
    mret (after_propagate self st inputs_hash r)
  else mret self.

Definition Outputs : Type := gmap string ndarray.

(** [compute]: the component after the call and the outputs written. *)
Definition compute (self : Comp) (inputs : Inputs) : M (Comp * Outputs) :=
  let cfg := config self in
  let t_name := time_name cfg in
  self ← propagate_if_changed self inputs (propagate_derivs_option cfg);
  st ← lift (get_storage self);
  let t := _t_out st in
  let x := _x_out st in
  (* extract time *)
  t_initial ← lift (get_input inputs "t_initial" ≫= as_scalar);
  t_duration ← lift (get_input inputs "t_duration" ≫= as_scalar);
  let outputs : Outputs := <[t_name := t]> ∅ in
  let outputs :=
    <[t_name +:+ "_phase" :=
        {| nd_shape := nd_shape t;
           nd_data := map (fun ti => fsub ti t_initial) (nd_data t) |}]>
      outputs in
  let outputs :=
    <["t_final" := {| nd_shape := (1, 1);
                      nd_data := [fadd t_initial t_duration] |}]> outputs in
  (* extract the state values *)
  outputs ← lift (foldl (fun acc item =>
                           outputs ← acc;
                           s ← get_key (state_idxs self) item.1;
                           Ok (<[state_output_name item.1 :=
                                   nd_cols x (Some (Z.of_nat s.1))
                                             (Some (Z.of_nat s.2))]> outputs))
                        (Ok outputs) (state_options cfg));
  mret (self, outputs).

(** The sub-Jacobians written by [compute_partials], as flat buffers. *)
Definition Partials : Type := gmap (string * string) (list F).

(** [A[idxs]] for a stored column selector, on a buffer that may be
    [None]. *)
Definition select_cols (buf : option ndarray) (sel : colsel) : res (list F) :=
  match buf with
  | None => Raise TypeError
  | Some A =>
      match sel with
      | ColRange a b =>
          Ok (ravel (nd_cols A (Some (Z.of_nat a)) (Some (Z.of_nat b))))
      | ColSingle a => nd_col A a
      end
  end.

(** [partials[of, wrt] = dx_dz[self._partial_dx_dz_idxs[of, wrt]]] *)
Definition write_partial (st : Storage) (dx_dz : option ndarray)
    (of_name wrt : string) (partials : Partials) : res Partials :=
  sel ← get_key (_partial_dx_dz_idxs st) (of_name, wrt);
  v ← select_cols dx_dz sel;
  Ok (<[(of_name, wrt) := v]> partials).

(** One of the loops over the inputs of a kind in [compute_partials]. *)
Definition write_partials_wrt (st : Storage) (dx_dz : option ndarray)
    (of_name : string) (input_name : string → string) (cat : catalog)
    (partials : res Partials) : res Partials :=
  foldl (fun acc item =>
           partials ← acc;
           write_partial st dx_dz of_name (input_name item.1) partials)
        partials cat.

(** [compute_partials]: the component after the call and the partials
    written. *)
Definition compute_partials (self : Comp) (inputs : Inputs)
    : M (Comp * Partials) :=
  let cfg := config self in
  (* only propagate if the inputs have changed *)
  self ← propagate_if_changed self inputs true;
  st ← lift (get_storage self);
  let t_name := time_name cfg in
  let dt_dz := _dt_dz_out st in
  let dx_dz := _dx_dz_out st in
  dt_dtd ← lift (match dt_dz with
                 | Some A => nd_col A (x_size self + 1)
                 | None => Raise TypeError
                 end);
  let partials : Partials := <[(t_name, "t_duration") := dt_dtd]> ∅ in
  let partials := <[(t_name +:+ "_phase", "t_duration") := dt_dtd]> partials in
  partials ← lift (foldl (fun acc item =>
      let of_name := state_output_name item.1 in
      let acc := write_partials_wrt st dx_dz of_name state_input_name
                   (state_options cfg) acc in
      let acc := partials ← acc;
                 write_partial st dx_dz of_name "t_initial" partials in
      let acc := partials ← acc;
                 write_partial st dx_dz of_name "t_duration" partials in
      let acc := write_partials_wrt st dx_dz of_name param_input_name
                   (parameter_options cfg) acc in
      let acc := write_partials_wrt st dx_dz of_name control_input_name
                   (control_options cfg) acc in
      write_partials_wrt st dx_dz of_name polynomial_control_input_name
        (polynomial_control_options cfg) acc)
    (Ok partials) (state_options cfg));
  mret (self, partials).

(** ** Setup *)

(** [setup].  The evaluation sub-problem built by [_setup_subprob] is
    external; each [_setup_*] method runs its [_configure_*] counterpart in
    stand-alone mode and is otherwise left to the enclosing phase. *)
Definition setup (self : Comp) : M Comp :=
  let cfg := config self in
  let ogd := _output_grid_data cfg in
  aligned ← ([EvIsAlignedWith
                (is_aligned_with (_input_grid_data cfg) (_output_grid_data cfg))],
             Ok (is_aligned_with (_input_grid_data cfg) (_output_grid_data cfg)));
  if negb aligned then raise RuntimeError
  else
    let self :=
      {| config := cfg;
         _inputs_cache := _inputs_cache self;
         _num_control_input_nodes := _num_control_input_nodes self;
         _num_output_rows := subset_num_nodes_all ogd;
         x_size := x_size self;
         state_idxs := state_idxs self;
         p_size := p_size self;
         parameter_idxs := parameter_idxs self;
         u_size := u_size self;
         up_size := up_size self;
         theta_size := theta_size self;
         z_size := z_size self;
         storage := storage self |} in
    if standalone_mode cfg then lift (configure self) else mret self.

(** ** The layout as lists of slices *)

(** The slices of the named quantities within [x]. *)
Definition x_layout (self : Comp) : option (list slice) :=
  named_slices (state_idxs self) (state_options (config self)).

(** The slices of the named quantities within [theta]: [t_initial] and
    [t_duration] sit at the fixed positions 0 and 1 ([theta[0]],
    [theta[1]] in [_propagate]). *)
Definition theta_layout (self : Comp) (st : Storage) : option (list slice) :=
  let cfg := config self in
  p ← named_slices (_parameter_idxs_in_theta st) (parameter_options cfg);
  u ← named_slices (_control_idxs_in_theta st) (control_options cfg);
  up ← named_slices (_polynomial_control_idxs_in_theta st)
         (polynomial_control_options cfg);
  Some ([(0, 1); (1, 2)] ++ p ++ u ++ up).

(** The slices of the named quantities within [z]: [t_initial] and
    [t_duration] sit at columns [x_size] and [x_size + 1]. *)
Definition z_layout (self : Comp) (st : Storage) : option (list slice) :=
  let cfg := config self in
  x ← named_slices (_state_idxs_in_z st) (state_options cfg);
  p ← named_slices (_parameter_idxs_in_z st) (parameter_options cfg);
  u ← named_slices (_control_idxs_in_z st) (control_options cfg);
  up ← named_slices (_polynomial_control_idxs_in_z st)
         (polynomial_control_options cfg);
  Some (x ++ [(x_size self, x_size self + 1);
              (x_size self + 1, x_size self + 2)] ++ p ++ u ++ up).

(** ** The layout, written out *)

(** A slice moved up by [a]. *)
Definition shift (a : nat) (s : slice) : slice := (a + s.1, a + s.2).

(** The slices of [x], of [theta] and of [z] that the configuration
    determines, in order. *)
Definition x_slices (cfg : Config) : list slice :=
  slices_from state_size (state_options cfg) 0.

Definition theta_slices (cfg : Config) : list slice :=
  let n := subset_num_nodes_control_input (input_grid_data cfg) in
  let n_p := total_size param_size (parameter_options cfg) in
  let n_u := total_size (control_param_size n) (control_options cfg) in
  [(0, 1); (1, 2)]
  ++ slices_from param_size (parameter_options cfg) 2
  ++ slices_from (control_param_size n) (control_options cfg) (2 + n_p)
  ++ slices_from polynomial_control_param_size
       (polynomial_control_options cfg) (2 + n_p + n_u).

Definition z_slices (cfg : Config) : list slice :=
  x_slices cfg
  ++ map (shift (total_size state_size (state_options cfg)))
         (theta_slices cfg).

(** What the component relies on in its configuration: the catalogs are
    dictionaries (distinct keys), and the grid's node count for the
    control-input subset is the number of its node indices, which address
    existing nodes. *)
Record Config_wf (cfg : Config) : Prop := {
  wf_states : NoDup (names (state_options cfg));
  wf_parameters : NoDup (names (parameter_options cfg));
  wf_controls : NoDup (names (control_options cfg));
  wf_polynomial_controls : NoDup (names (polynomial_control_options cfg));
  wf_num_nodes :
    subset_num_nodes_control_input (input_grid_data cfg)
    = length (subset_node_indices_control_input (input_grid_data cfg));
  wf_node_indices :
    Forall (fun i => i < length (node_ptau (input_grid_data cfg)))
           (subset_node_indices_control_input (input_grid_data cfg))
}.

(** What [configure] leaves in a fresh component. *)
Record Configured (cfg : Config) (self : Comp) (st : Storage) : Prop := {
  cfd_config : config self = cfg;
  cfd_storage : storage self = Some st;
  cfd_cache : _inputs_cache self = "";
  cfd_x_size : x_size self = total_size state_size (state_options cfg);
  cfd_p_size : p_size self = total_size param_size (parameter_options cfg);
  cfd_u_size :
    u_size self
    = total_size
        (control_param_size
           (subset_num_nodes_control_input (input_grid_data cfg)))
        (control_options cfg);
  cfd_up_size :
    up_size self
    = total_size polynomial_control_param_size
        (polynomial_control_options cfg);
  cfd_theta_size :
    theta_size self = 2 + p_size self + u_size self + up_size self;
  cfd_z_size : z_size self = x_size self + theta_size self;
  cfd_state_idxs :
    state_idxs self = (assign_slices state_size (state_options cfg) 0 ∅).2;
  cfd_state_idxs_in_z :
    _state_idxs_in_z st
    = (assign_slices state_size (state_options cfg) 0 ∅).2;
  cfd_parameter_idxs_in_z :
    _parameter_idxs_in_z st
    = (assign_slices param_size (parameter_options cfg)
         (x_size self + 2) ∅).2;
  cfd_parameter_idxs_in_theta :
    _parameter_idxs_in_theta st
    = (assign_slices param_size (parameter_options cfg) 2 ∅).2;
  cfd_control_idxs_in_z :
    _control_idxs_in_z st
    = (assign_slices
         (control_param_size
            (subset_num_nodes_control_input (input_grid_data cfg)))
         (control_options cfg) (x_size self + 2 + p_size self) ∅).2;
  cfd_control_idxs_in_theta :
    _control_idxs_in_theta st
    = (assign_slices
         (control_param_size
            (subset_num_nodes_control_input (input_grid_data cfg)))
         (control_options cfg) (2 + p_size self) ∅).2;
  cfd_polynomial_control_idxs_in_z :
    _polynomial_control_idxs_in_z st
    = (assign_slices polynomial_control_param_size
         (polynomial_control_options cfg)
         (x_size self + 2 + p_size self + u_size self) ∅).2;
  cfd_polynomial_control_idxs_in_theta :
    _polynomial_control_idxs_in_theta st
    = (assign_slices polynomial_control_param_size
         (polynomial_control_options cfg)
         (2 + p_size self + u_size self) ∅).2;
  cfd_nnps :
    _nnps st = subset_num_nodes_per_segment_all (_output_grid_data cfg);
  cfd_t_out : _t_out st = np_zeros (py_sum (_nnps st)) 1;
  cfd_x_out : _x_out st = np_zeros (py_sum (_nnps st)) (x_size self);
  cfd_dx_dz_out :
    _dx_dz_out st
    = if propagate_derivs_option cfg
      then Some (np_zeros (py_sum (_nnps st)) (x_size self * z_size self))
      else None;
  cfd_dt_dz_out :
    _dt_dz_out st
    = if propagate_derivs_option cfg
      then Some (np_zeros (py_sum (_nnps st)) (z_size self))
      else None;
  cfd_partial_dx_dz_idxs :
    _partial_dx_dz_idxs st
    = _build_dx_dz_idxs (state_options cfg) (parameter_options cfg)
        (control_options cfg) (polynomial_control_options cfg)
        (subset_num_nodes_control_input (input_grid_data cfg));
  cfd_dx_dz_0 :
    _dx_dz_0 st
    = tabulate (x_size self) (z_size self)
        (fun i j => if decide (i = j) then fone else fzero);
  cfd_dt_dz_0 :
    _dt_dz_0 st
    = {| nd_shape := (1, z_size self);
         nd_data := <[x_size self := fone]> (replicate (z_size self) fzero) |};
  cfd_dtheta_dz :
    _dtheta_dz st
    = tabulate (theta_size self) (z_size self)
        (fun i j => if decide (j = x_size self + i) then fone else fzero)
}.

(** ** Vocabulary of the dynamics properties *)

(** The unit vector [e_j] of length [n]. *)
Definition unit_vector (n j : nat) : list F := <[j := fone]> (replicate n fzero).


(** ** Vocabulary of the propagation properties *)

(** The dynamics function handed to the solver for segment [i]. *)
Definition segment_rhs (self : Comp) (st : Storage) (_propagate_derivs : bool)
    (theta : list F) (i : nat) : F → list F → res (list F) :=
  if _propagate_derivs
  then fun t y => _f_augmented self i t y theta (_dtheta_dz st)
  else fun t x => _f_primal self i t x theta.

(** [c] is the solver call that the loop body makes for segment [i] when
    it starts from [y0]. *)
Record segment_call (self : Comp) (st : Storage) (_propagate_derivs : bool)
    (t_initial t_duration : F) (theta y0 : list F) (i : nat)
    (c : SolverCall) : Prop := {
  call_segment : sc_segment c = i;
  call_augmented : sc_augmented c = _propagate_derivs;
  call_t_eval :
    ∃ seg,
      segment_indices (_output_grid_data (config self)) !! i = Some seg
      ∧ sc_t_eval c
        = map (node_time t_initial t_duration)
            (np_slice (node_ptau (_output_grid_data (config self)))
               (Some (Z.of_nat seg.1)) (Some (Z.of_nat seg.2)));
  call_t_span :
    head (sc_t_eval c) = Some (sc_t_span c).1
    ∧ last (sc_t_eval c) = Some (sc_t_span c).2;
  call_y0 : sc_y0 c = y0;
  call_theta : sc_theta c = theta;
  call_dtheta_dz :
    sc_dtheta_dz c = if _propagate_derivs then Some (_dtheta_dz st) else None;
  call_result :
    sc_result c
    = solve_ivp (segment_rhs self st _propagate_derivs theta i)
        (sc_t_span c) (sc_t_eval c) (sc_y0 c)
}.

(** The solver calls [calls] are those of the segment loop over [segs]
    started from [y0], up to where it stopped: each is the call of its
    segment, and each but the last returned a solution whose last row is
    the [y0] of the next. *)
Fixpoint calls_chain (self : Comp) (st : Storage) (_propagate_derivs : bool)
    (t_initial t_duration : F) (theta y0 : list F) (segs : list nat)
    (calls : list SolverCall) : Prop :=
  match calls, segs with
  | [], _ => True
  | _ :: _, [] => False
  | c :: calls, i :: segs =>
      segment_call self st _propagate_derivs t_initial t_duration theta y0 i c
      ∧ match calls with
        | [] => True
        | _ :: _ =>
            ∃ sol y1,
              sc_result c = Ok sol ∧ nd_last_row (sol_y_T sol) = Ok y1
              ∧ calls_chain self st _propagate_derivs t_initial t_duration
                  theta y1 segs calls
        end
  end.

(** ** Vocabulary of the partials properties *)

(** The assignments [partials[of, wrt] = dx_dz[idxs[of, wrt]]] for a list
    of pairs, in order. *)
Definition write_keys (st : Storage) (dx_dz : option ndarray)
    (keys : list (string * string)) (partials : res Partials) : res Partials :=
  foldl (fun acc key =>
           partials ← acc;
           write_partial st dx_dz key.1 key.2 partials)
        partials keys.

(** * Properties *)

(** ** Tilings *)

Lemma tiles_le a l b : tiles a l b → a ≤ b.
Proof.
  revert a. induction l as [|s l IH]; simpl; intros a H.
  - lia.
  - destruct H as (<- & Hle & H). apply IH in H. lia.
Qed.

Lemma tiles_app a l1 b l2 c :
  tiles a l1 b → tiles b l2 c → tiles a (l1 ++ l2) c.
Proof.
  revert a. induction l1 as [|s l1 IH]; simpl; intros a H1 H2.
  - by subst.
  - destruct H1 as (? & ? & ?). auto.
Qed.

(** A tiling covers every position of its range exactly once. *)
Lemma tiles_cover_once a l b k :
  tiles a l b → a ≤ k < b →
  ∃ i s, l !! i = Some s ∧ s.1 ≤ k < s.2
         ∧ ∀ j s', l !! j = Some s' → s'.1 ≤ k < s'.2 → j = i.
Proof.
  revert a. induction l as [|s l IH]; simpl; intros a H Hk.
  - lia.
  - destruct H as (Hs & Hle & H).
    destruct (decide (k < s.2)) as [Hlt|Hge].
    + exists 0, s. split; [done|]. split; [lia|].
      intros [|j] s' Hj Hin; [done|]. simpl in Hj.
      assert (s.2 ≤ s'.1); [|lia].
      clear -H Hj. revert j Hj H. generalize (s.2).
      induction l as [|s0 l IHl]; intros n j Hj H; [done|].
      destruct H as (H0 & H1 & H). destruct j as [|j]; simplify_eq/=.
      * lia.
      * etrans; [|by eapply IHl]. lia.
    + destruct (IH (s.2) H) as (i & s0 & Hi & Hin & Huniq); [lia|].
      exists (S i), s0. split; [done|]. split; [done|].
      intros [|j] s' Hj Hin'; simplify_eq/=; [lia|].
      f_equal. eauto.
Qed.

(** A slice of a tiling lies within the tiled range. *)
Lemma tiles_within a l b i s :
  tiles a l b → l !! i = Some s → a ≤ s.1 ∧ s.1 ≤ s.2 ∧ s.2 ≤ b.
Proof.
  revert a i. induction l as [|s0 l IH]; intros a i H Hi; [done|].
  destruct H as (H0 & H1 & H). destruct i as [|i]; simplify_eq/=.
  - apply tiles_le in H. lia.
  - destruct (IH _ _ H Hi) as (? & ? & ?). lia.
Qed.

(** ** The shared slicing loop *)

Lemma slices_from_tiles size_of cat start :
  tiles start (slices_from size_of cat start)
        (start + total_size size_of cat).
Proof.
  revert start. induction cat as [|item cat IH]; intros start; simpl.
  - unfold total_size. simpl. lia.
  - split; [done|]. split; [lia|].
    replace (start + total_size size_of (item :: cat))
      with (start + size_of item.2 + total_size size_of cat)
      by (unfold total_size; simpl; lia).
    apply IH.
Qed.

Lemma assign_slices_cons size_of item cat start idxs :
  assign_slices size_of (item :: cat) start idxs
  = assign_slices size_of cat (start + size_of item.2)
      (<[item.1 := (start, start + size_of item.2)]> idxs).
Proof. reflexivity. Qed.

Lemma assign_slices_fst size_of cat start idxs :
  (assign_slices size_of cat start idxs).1 = start + total_size size_of cat.
Proof.
  revert start idxs. induction cat as [|item cat IH]; intros start idxs.
  - unfold total_size. simpl. lia.
  - rewrite assign_slices_cons, IH. unfold total_size. simpl. lia.
Qed.

Lemma assign_slices_other size_of cat start idxs n :
  n ∉ names cat →
  (assign_slices size_of cat start idxs).2 !! n = idxs !! n.
Proof.
  revert start idxs. induction cat as [|item cat IH]; intros start idxs Hn.
  - done.
  - rewrite assign_slices_cons. unfold names in *. simpl in Hn.
    apply not_elem_of_cons in Hn as [Hne Hn].
    rewrite IH by done. by rewrite lookup_insert_ne.
Qed.

Lemma assign_slices_named size_of cat start idxs :
  NoDup (names cat) →
  named_slices (assign_slices size_of cat start idxs).2 cat
  = Some (slices_from size_of cat start).
Proof.
  unfold named_slices. intros Hnd. apply mapM_Some.
  revert start idxs. induction cat as [|item cat IH]; intros start idxs.
  - constructor.
  - unfold names in *. simpl in *. apply NoDup_cons in Hnd as [Hnotin Hnd].
    rewrite assign_slices_cons. constructor; [|by apply IH].
    rewrite assign_slices_other by done. by rewrite lookup_insert_eq.
Qed.

Lemma foldl_sizes size_of (cat : catalog) acc :
  foldl (fun n item => n + size_of item.2) acc cat
  = acc + total_size size_of cat.
Proof.
  revert acc. induction cat as [|item cat IH]; intros acc; simpl.
  - unfold total_size. simpl. lia.
  - rewrite IH. unfold total_size. simpl. lia.
Qed.

(** ** Arrays *)

Lemma tabulate_data_length r c f : length (nd_data (tabulate r c f)) = r * c.
Proof.
  unfold tabulate. simpl. generalize 0 at 2.
  induction r as [|r IH]; intros s; simpl; [done|].
  rewrite length_app, length_map, length_seq, IH. done.
Qed.


Lemma tabulate_lookup r c f i j :
  i < r → j < c → nd_data (tabulate r c f) !! (i * c + j) = Some (f i j).
Proof.
  unfold tabulate. simpl. intros Hi Hj.
  enough (∀ s, flat_map (fun i => map (f i) (seq 0 c)) (seq s r)
               !! (i * c + j) = Some (f (s + i) j)) as H by apply (H 0).
  revert i Hi. induction r as [|r IH]; intros i Hi s; [lia|]. simpl.
  destruct i as [|i].
  - rewrite lookup_app_l by (rewrite length_map, length_seq; simpl; lia).
    simpl. rewrite list_lookup_fmap, lookup_seq_lt by done.
    simpl. by rewrite Nat.add_0_r.
  - rewrite lookup_app_r by (rewrite length_map, length_seq; simpl; lia).
    rewrite length_map, length_seq.
    replace (S i * c + j - c) with (i * c + j) by (simpl; lia).
    rewrite IH by lia. do 2 f_equal. lia.
Qed.

Lemma nd_at_tabulate r c f i j :
  i < r → j < c → nd_at (tabulate r c f) i j = f i j.
Proof.
  intros Hi Hj. unfold nd_at. change (ncols (tabulate r c f)) with c.
  by rewrite tabulate_lookup.
Qed.

Lemma np_zeros_wf r c : nd_wf (np_zeros r c).
Proof. unfold nd_wf, np_zeros. simpl. by rewrite length_replicate. Qed.

Lemma nd_at_zeros r c i j : nd_at (np_zeros r c) i j = fzero.
Proof.
  unfold nd_at, np_zeros. simpl.
  destruct (replicate (r * c) fzero !! _) as [x|] eqn:E; [|done].
  apply lookup_replicate in E as [-> _]. done.
Qed.

(** The bounds of the slices that the source takes. *)
Lemma slice_bounds_upto len n :
  n ≤ len → slice_bounds len None (Some (Z.of_nat n)) = (0, n).
Proof.
  intros H. unfold slice_bounds, norm_index.
  destruct (Z.ltb_spec (Z.of_nat n) 0); [lia|].
  f_equal. lia.
Qed.

Lemma slice_bounds_range len a b :
  a ≤ b → b ≤ len →
  slice_bounds len (Some (Z.of_nat a)) (Some (Z.of_nat b)) = (a, b).
Proof.
  intros H1 H2. unfold slice_bounds, norm_index.
  destruct (Z.ltb_spec (Z.of_nat a) 0); [lia|].
  destruct (Z.ltb_spec (Z.of_nat b) 0); [lia|].
  f_equal; lia.
Qed.

Lemma slice_bounds_last len n :
  0 < n → n ≤ len →
  slice_bounds len (Some (- Z.of_nat n)%Z) None = (len - n, len).
Proof.
  intros H1 H2. unfold slice_bounds, norm_index.
  destruct (Z.ltb_spec (- Z.of_nat n) 0); [|lia].
  f_equal; lia.
Qed.

Lemma flat_map_ext_Forall {A B} (f g : A → list B) l :
  Forall (fun a => f a = g a) l → flat_map f l = flat_map g l.
Proof. induction 1; simpl; congruence. Qed.

Lemma tabulate_ext r c f g :
  (∀ i j, i < r → j < c → f i j = g i j) → tabulate r c f = tabulate r c g.
Proof.
  intros H. unfold tabulate. f_equal. apply flat_map_ext_Forall.
  apply Forall_forall. intros i Hi%elem_of_seq.
  apply map_ext_in. intros j Hj%in_seq. apply H; lia.
Qed.

Lemma np_item_lookup v i x : v !! i = Some x → np_item v i = Ok x.
Proof. unfold np_item. by intros ->. Qed.

Lemma np_take_ok v idxs :
  Forall (fun i => i < length v) idxs →
  ∃ w, np_take v idxs = Ok w ∧ length w = length idxs.
Proof.
  unfold np_take. induction 1 as [|i idxs Hi _ (w & Hw & Hl)]; simpl.
  - by exists [].
  - destruct (lookup_lt_is_Some_2 v i Hi) as [x Hx].
    rewrite (np_item_lookup _ _ _ Hx). simpl. rewrite Hw. simpl. exists (x :: w). simpl. by rewrite Hl.
Qed.

(** [[I, 0]]: the identity in the leading columns, zero elsewhere. *)
Lemma dx_dz_0_value n c :
  n ≤ c →
  nd_assign_cols (np_zeros n c) None (Some (Z.of_nat n)) (np_eye n)
  = Ok (tabulate n c (fun i j => if decide (i = j) then fone else fzero)).
Proof.
  intros H. unfold nd_assign_cols.
  change (ncols (np_zeros n c)) with c. change (nrows (np_zeros n c)) with n.
  rewrite slice_bounds_upto by done.
  rewrite decide_True by (simpl; f_equal; lia).
  f_equal. apply tabulate_ext. intros i j Hi Hj.
  destruct (decide (0 ≤ j < n)) as [Hin|Hout].
  - unfold np_eye. rewrite nd_at_tabulate by lia.
    rewrite Nat.sub_0_r. done.
  - rewrite nd_at_zeros. rewrite decide_False by lia. done.
Qed.

(** [[0 | I]]: the identity in the trailing columns, zero elsewhere. *)
Lemma dtheta_dz_value n c :
  0 < n → n ≤ c →
  nd_assign_cols (np_zeros n c) (Some (- Z.of_nat n)%Z) None (np_eye n)
  = Ok (tabulate n c
          (fun i j => if decide (j = (c - n) + i) then fone else fzero)).
Proof.
  intros H0 H. unfold nd_assign_cols.
  change (ncols (np_zeros n c)) with c. change (nrows (np_zeros n c)) with n.
  rewrite slice_bounds_last by done.
  rewrite decide_True by (simpl; f_equal; lia).
  f_equal. apply tabulate_ext. intros i j Hi Hj.
  destruct (decide (c - n ≤ j < c)) as [Hin|Hout].
  - unfold np_eye. rewrite nd_at_tabulate by lia.
    destruct (decide (i = j - (c - n))), (decide (j = c - n + i)); done || lia.
  - rewrite nd_at_zeros. rewrite decide_False by lia. done.
Qed.

(** ** Configuration *)

(** Configuring a component whose cache is still empty, over a
    well-formed configuration, succeeds. *)
Lemma configure_ok cfg self0 :
  Config_wf cfg →
  config self0 = cfg →
  _inputs_cache self0 = "" →
  _num_control_input_nodes self0
  = subset_num_nodes_control_input (input_grid_data cfg) →
  ∃ self st, configure self0 = Ok self ∧ Configured cfg self st.
Proof.
  intros Hwf Hcfg Hcache Hnum. unfold configure, _configure_storage.
  cbv zeta. cbn [config _inputs_cache _num_control_input_nodes
    _num_output_rows x_size state_idxs p_size parameter_idxs u_size up_size
    theta_size z_size storage].
  rewrite Hcfg, Hcache, Hnum.
  unfold _input_grid_data.
  destruct (np_take_ok (node_ptau (input_grid_data cfg))
              (subset_node_indices_control_input (input_grid_data cfg)))
    as (w & -> & Hlen); [apply Hwf|].
  cbn [mbind res_bind].
  rewrite <- (wf_num_nodes _ Hwf) in Hlen. rewrite Hlen.
  unfold _configure_states, _configure_parameters, _configure_controls,
    _configure_polynomial_controls.
  rewrite !assign_slices_fst.
  rewrite (foldl_sizes (control_param_size _)).
  rewrite (foldl_sizes polynomial_control_param_size).
  rewrite !Nat.add_0_l.
  set (n_x := total_size state_size _).
  set (n_p := total_size param_size _).
  set (n_u := total_size (control_param_size _) _).
  set (n_up := total_size polynomial_control_param_size _).
  rewrite dx_dz_0_value by lia. cbn [mbind res_bind].
  unfold nd_set. rewrite decide_True
    by (change (nrows (np_zeros 1 ?c)) with 1; unfold ncols; simpl; lia).
  cbn [mbind res_bind].
  rewrite dtheta_dz_value by lia. cbn [mbind res_bind].
  eexists _, _. split; [reflexivity|].
  constructor; cbn [config _inputs_cache x_size state_idxs p_size
    parameter_idxs u_size up_size theta_size z_size storage
    _state_idxs_in_z _parameter_idxs_in_z _parameter_idxs_in_theta
    _control_idxs_in_z _control_idxs_in_theta _polynomial_control_idxs_in_z
    _polynomial_control_idxs_in_theta _nnps _t_out _x_out _dx_dz_out
    _dt_dz_out _partial_dx_dz_idxs _dx_dz_0 _dt_dz_0 _dtheta_dz];
    try reflexivity.
  - unfold np_zeros. cbn. do 2 f_equal. by rewrite Nat.add_0_r.
  - f_equal. apply tabulate_ext. intros i j Hi Hj.
    destruct (decide (j = n_x + (2 + n_p + n_u + n_up) - (2 + n_p + n_u + n_up) + i)),
      (decide (j = n_x + i)); done || lia.
Qed.

(** Configuring a fresh component over a well-formed configuration
    succeeds. *)
Lemma configure_init cfg :
  Config_wf cfg →
  ∃ self st, configure (__init__ cfg) = Ok self ∧ Configured cfg self st.
Proof. intros Hwf. by apply configure_ok. Qed.


(** ** Layout completeness *)

Lemma slices_from_shift size_of cat a start :
  slices_from size_of cat (a + start)
  = map (fun s : slice => (a + s.1, a + s.2)) (slices_from size_of cat start).
Proof.
  revert start. induction cat as [|item cat IH]; intros start; simpl; [done|].
  rewrite <- IH. do 2 f_equal; lia.
Qed.

(** The layout of a configured component is the one the configuration
    determines, and it tiles the three vectors. *)
Lemma layout_configured cfg self st :
  Config_wf cfg → Configured cfg self st →
  x_layout self = Some (x_slices cfg)
  ∧ tiles 0 (x_slices cfg) (x_size self)
  ∧ theta_layout self st = Some (theta_slices cfg)
  ∧ tiles 0 (theta_slices cfg) (theta_size self)
  ∧ z_layout self st = Some (z_slices cfg)
  ∧ tiles 0 (z_slices cfg) (z_size self).
Proof.
  intros Hwf H. destruct H. destruct Hwf.
  unfold z_slices. unfold x_slices, theta_slices. cbv zeta.
  set (n := subset_num_nodes_control_input (input_grid_data cfg)) in *.
  rewrite <- cfd_x_size0, <- cfd_p_size0, <- cfd_u_size0.
  assert (Hx : tiles 0 (slices_from state_size (state_options cfg) 0)
                 (x_size self)).
  { rewrite cfd_x_size0. apply (slices_from_tiles _ _ 0). }
  assert (Htail : ∀ a,
    tiles (a + 2)
      (slices_from param_size (parameter_options cfg) (a + 2)
       ++ slices_from (control_param_size n) (control_options cfg)
            (a + 2 + p_size self)
       ++ slices_from polynomial_control_param_size
            (polynomial_control_options cfg) (a + 2 + p_size self + u_size self))
      (a + theta_size self)).
  { intros a. rewrite cfd_theta_size0, cfd_up_size0, cfd_u_size0, cfd_p_size0.
    eapply tiles_app; [apply slices_from_tiles|].
    eapply tiles_app; [apply slices_from_tiles|].
    rewrite !Nat.add_assoc. apply slices_from_tiles. }
  assert (Hz : slices_from state_size (state_options cfg) 0
               ++ map (shift (x_size self))
                    ([(0, 1); (1, 2)]
                     ++ slices_from param_size (parameter_options cfg) 2
                     ++ slices_from (control_param_size n)
                          (control_options cfg) (2 + p_size self)
                     ++ slices_from polynomial_control_param_size
                          (polynomial_control_options cfg)
                          (2 + p_size self + u_size self))
               = slices_from state_size (state_options cfg) 0
                 ++ [(x_size self, x_size self + 1);
                     (x_size self + 1, x_size self + 2)]
                 ++ slices_from param_size (parameter_options cfg)
                      (x_size self + 2)
                 ++ slices_from (control_param_size n) (control_options cfg)
                      (x_size self + 2 + p_size self)
                 ++ slices_from polynomial_control_param_size
                      (polynomial_control_options cfg)
                      (x_size self + 2 + p_size self + u_size self)).
  { f_equal. simpl. rewrite !map_app. unfold shift at 1 2. cbn [fst snd].
    change (map (shift (x_size self)))
      with (map (fun s : slice => (x_size self + s.1, x_size self + s.2))).
    rewrite <- !slices_from_shift.
    repeat (f_equal; try lia). }
  rewrite Hz.
  split.
  { unfold x_layout. rewrite cfd_config0, cfd_state_idxs0.
    by apply assign_slices_named. }
  split; [done|].
  split.
  { unfold theta_layout.
    rewrite cfd_config0, cfd_parameter_idxs_in_theta0,
      cfd_control_idxs_in_theta0, cfd_polynomial_control_idxs_in_theta0.
    rewrite !assign_slices_named by done. done. }
  split.
  { simpl. split; [done|]. split; [lia|]. split; [done|]. split; [lia|].
    apply (Htail 0). }
  split.
  { unfold z_layout.
    rewrite cfd_config0, cfd_state_idxs_in_z0, cfd_parameter_idxs_in_z0,
      cfd_control_idxs_in_z0, cfd_polynomial_control_idxs_in_z0.
    rewrite !assign_slices_named by done. done. }
  eapply tiles_app; [exact Hx|]. simpl.
  split; [done|]. split; [lia|]. split; [done|]. split; [lia|].
  rewrite cfd_z_size0.
  replace (x_size self + 1 + 1) with (x_size self + 2) by lia.
  apply Htail.
Qed.

(** C2. For every well-formed configuration, configuring the component
    gives every named quantity one contiguous slice in each vector it
    belongs to; [theta] has size [2 + n_p + n_u + n_up] and is ordered
    [t_initial, t_duration, parameters, controls, polynomial controls];
    [z] is [x] followed by [theta] and has size [n_x + n_theta]; and the
    slices tile [[0, n_x)], [[0, n_theta)] and [[0, n_z)]: no gap, no
    overlap. *)
Theorem layout_complete cfg :
  Config_wf cfg →
  ∃ self st lx ltheta lz,
    configure (__init__ cfg) = Ok self ∧ storage self = Some st
    ∧ theta_size self
      = 2 + total_size param_size (parameter_options cfg)
        + total_size
            (control_param_size
               (subset_num_nodes_control_input (input_grid_data cfg)))
            (control_options cfg)
        + total_size polynomial_control_param_size
            (polynomial_control_options cfg)
    ∧ z_size self = x_size self + theta_size self
    ∧ x_layout self = Some lx ∧ tiles 0 lx (x_size self)
    ∧ theta_layout self st = Some ltheta ∧ tiles 0 ltheta (theta_size self)
    ∧ z_layout self st = Some lz ∧ tiles 0 lz (z_size self)
    ∧ lz = lx ++ map (fun s : slice => (x_size self + s.1, x_size self + s.2))
                     ltheta.
Proof.
  intros Hwf. destruct (configure_init cfg Hwf) as (self & st & Hc & H).
  destruct (layout_configured cfg self st Hwf H)
    as (Hx & Htx & Hth & Htth & Hz & Htz).
  exists self, st, (x_slices cfg), (theta_slices cfg), (z_slices cfg).
  split; [done|]. split; [apply H|].
  split.
  { rewrite (cfd_theta_size _ _ _ H), (cfd_p_size _ _ _ H),
      (cfd_u_size _ _ _ H), (cfd_up_size _ _ _ H). lia. }
  split; [apply H|].
  repeat (split; [done|]).
  unfold z_slices. by rewrite (cfd_x_size _ _ _ H).
Qed.

(** ** Slices of concatenations *)

Lemma np_slice_upto {A} (v : list A) n :
  n ≤ length v → np_slice v None (Some (Z.of_nat n)) = take n v.
Proof.
  intros H. unfold np_slice. rewrite slice_bounds_upto by done.
  by rewrite Nat.sub_0_r.
Qed.

Lemma np_slice_range {A} (v : list A) a b :
  a ≤ b → b ≤ length v →
  np_slice v (Some (Z.of_nat a)) (Some (Z.of_nat b)) = take (b - a) (drop a v).
Proof. intros H1 H2. unfold np_slice. by rewrite slice_bounds_range. Qed.

Lemma np_slice_last {A} (v : list A) n :
  0 < n → n ≤ length v →
  np_slice v (Some (- Z.of_nat n)%Z) None = drop (length v - n) v.
Proof.
  intros H1 H2. unfold np_slice. rewrite slice_bounds_last by done.
  rewrite take_ge; [done|]. rewrite length_drop. lia.
Qed.

Lemma np_slice_app_first {A} (u v : list A) :
  np_slice (u ++ v) None (Some (Z.of_nat (length u))) = u.
Proof.
  rewrite np_slice_upto by (rewrite length_app; lia).
  by rewrite take_app_length.
Qed.

Lemma np_slice_app_middle {A} (u v w : list A) :
  np_slice (u ++ v ++ w) (Some (Z.of_nat (length u)))
           (Some (Z.of_nat (length u + length v))) = v.
Proof.
  rewrite np_slice_range by (rewrite ?length_app; lia).
  rewrite drop_app_length.
  replace (length u + length v - length u) with (length v) by lia.
  by rewrite take_app_length.
Qed.

Lemma np_slice_app_last {A} (u v : list A) :
  0 < length v →
  np_slice (u ++ v) (Some (- Z.of_nat (length v))%Z) None = v.
Proof.
  intros H. rewrite np_slice_last by (rewrite ?length_app; lia).
  rewrite length_app.
  replace (length u + length v - length v) with (length u) by lia.
  by rewrite drop_app_length.
Qed.

(** ** Sums and products of arrays *)



Lemma np_reshape_ok v r c :
  length v = r * c → np_reshape v r c = Ok {| nd_shape := (r, c); nd_data := v |}.
Proof. intros H. unfold np_reshape. by rewrite decide_True. Qed.

(** ** The augmented dynamics *)

(** The three blocks of a concatenation, by their sizes. *)
Lemma np_slice_blocks {A} (u v w : list A) n m k :
  length u = n → length v = m → length w = k → 0 < k →
  np_slice (u ++ v ++ w) None (Some (Z.of_nat n)) = u
  ∧ np_slice (u ++ v ++ w) (Some (Z.of_nat n)) (Some (Z.of_nat (n + m))) = v
  ∧ np_slice (u ++ v ++ w) (Some (- Z.of_nat k)%Z) None = w.
Proof.
  intros <- <- <- Hk. split; [apply np_slice_app_first|].
  split; [apply np_slice_app_middle|].
  rewrite app_assoc. by apply np_slice_app_last.
Qed.



(** ** The logging monad *)

Lemma M_bind_log {A B} (m : M A) (k : A → M B) :
  (m ≫= k).1 = m.1 ++ match m.2 with Ok a => (k a).1 | Raise _ => [] end.
Proof.
  destruct m as [l [a|e]]; unfold mbind, M_bind; simpl; [done|].
  by rewrite app_nil_r.
Qed.

Lemma M_bind_res {A B} (m : M A) (k : A → M B) :
  (m ≫= k).2 = match m.2 with Ok a => (k a).2 | Raise e => Raise e end.
Proof. by destruct m as [l [a|e]]. Qed.

Lemma lift_bind {A B} (r : res A) (k : A → M B) :
  lift r ≫= k = match r with Ok a => k a | Raise e => ([], Raise e) end.
Proof.
  destruct r as [a|e]; unfold mbind, M_bind, lift; simpl; [|done].
  by destruct (k a).
Qed.

Lemma solver_calls_app l1 l2 :
  solver_calls (l1 ++ l2) = solver_calls l1 ++ solver_calls l2.
Proof. apply omap_app. Qed.

Lemma propagate_calls_app l1 l2 :
  propagate_calls (l1 ++ l2) = propagate_calls l1 ++ propagate_calls l2.
Proof. apply omap_app. Qed.

(** ** The segment loop *)

(** The loop body either raises before it reaches the solver, logging
    nothing, or logs exactly the call of its segment; if it completes,
    that call returned a solution whose last row is the next [y0]. *)
Lemma propagate_segment_spec self st d ti td theta ls i :
  let r := propagate_segment self st d ti td theta ls i in
  (r.1 = [] ∧ (∃ e, r.2 = Raise e)
   ∧ ∀ seg,
       segment_indices (_output_grid_data (config self)) !! i = Some seg →
       np_slice (node_ptau (_output_grid_data (config self)))
         (Some (Z.of_nat seg.1)) (Some (Z.of_nat seg.2)) = [])
  ∨ ∃ c, r.1 = [EvSolveIvp c]
         ∧ segment_call self st d ti td theta (ls_y0 ls) i c
         ∧ ∀ ls', r.2 = Ok ls' →
             ∃ sol, sc_result c = Ok sol
                    ∧ nd_last_row (sol_y_T sol) = Ok (ls_y0 ls').
Proof.
  unfold propagate_segment. cbv zeta.
  destruct (segment_indices _ !! i) as [seg|] eqn:Hseg;
    rewrite lift_bind; [|left; split; [done|]; split; [eauto|done]].
  set (t_eval := map _ _).
  destruct (head t_eval) as [t_first|] eqn:Hhead; rewrite lift_bind.
  2: { left. split; [done|]. split; [eauto|]. intros ? [= <-].
       apply head_None in Hhead. by apply fmap_nil_inv in Hhead. }
  destruct (last t_eval) as [t_last|] eqn:Hlast; rewrite lift_bind.
  2: { left. split; [done|]. split; [eauto|]. intros ? [= <-].
       apply last_None in Hlast. by apply fmap_nil_inv in Hlast. }
  right.
  set (c := {| sc_segment := i; sc_augmented := d;
               sc_t_span := (t_first, t_last); sc_t_eval := t_eval;
               sc_y0 := ls_y0 ls; sc_theta := theta;
               sc_dtheta_dz := if d then Some (_dtheta_dz st) else None;
               sc_result := solve_ivp (segment_rhs self st d theta i)
                              (t_first, t_last) t_eval (ls_y0 ls) |}).
  exists c.
  assert (Hcall : (if d then
             call_solve_ivp i true
               (fun t y => _f_augmented self i t y theta (_dtheta_dz st))
               (t_first, t_last) t_eval (ls_y0 ls) theta (Some (_dtheta_dz st))
           else
             call_solve_ivp i false
               (fun t x => _f_primal self i t x theta)
               (t_first, t_last) t_eval (ls_y0 ls) theta None)
          = ([EvSolveIvp c], sc_result c)).
  { unfold c, segment_rhs. by destruct d. }
  rewrite Hcall. clear Hcall.
  split; [|split].
  - rewrite M_bind_log. cbn [fst snd].
    destruct (sc_result c) as [sol|e] eqn:Hres; [|done].
    repeat (rewrite lift_bind;
            match goal with
            | |- context [(match ?r with Ok _ => _ | Raise _ => _ end).1] =>
                destruct r; cbn [fst snd]; try done
            end).
  - constructor; try done. eauto.
  - intros ls' Hls'. rewrite M_bind_res in Hls'. cbn [fst snd] in Hls'.
    destruct (sc_result c) as [sol|e] eqn:Hres; [|done].
    exists sol. split; [done|].
    revert Hls'.
    repeat (rewrite lift_bind;
            match goal with
            | |- context [(match ?r with Ok _ => _ | Raise _ => _ end).2] =>
                let E := fresh "E" in destruct r eqn:E; cbn [fst snd];
                try done
            end).
    intros [= <-]. done.
Qed.

(** The loop logs solver calls only; they form a chain from the initial
    [y0]; and if the loop completes there is one call per segment. *)
Lemma propagate_segments_spec self st d ti td theta segs ls :
  let r := propagate_segments self st d ti td theta ls segs in
  r.1 = map EvSolveIvp (solver_calls r.1)
  ∧ calls_chain self st d ti td theta (ls_y0 ls) segs (solver_calls r.1)
  ∧ (is_ok r.2 = true → length (solver_calls r.1) = length segs).
Proof.
  revert ls. induction segs as [|i segs IH]; intros ls; cbv zeta.
  - simpl. done.
  - cbn [propagate_segments]. rewrite M_bind_log, M_bind_res.
    destruct (propagate_segment_spec self st d ti td theta ls i)
      as [(Hlog & (e & Hres) & _)|(c & Hlog & Hcall & Hnext)].
    + rewrite Hlog, Hres. simpl. done.
    + rewrite Hlog.
      destruct (propagate_segment self st d ti td theta ls i).2
        as [ls'|e] eqn:Hres.
      * destruct (IH ls') as (IH1 & IH2 & IH3).
        destruct (Hnext ls' eq_refl) as (sol & Hsol & Hlast).
        rewrite solver_calls_app. cbn [solver_calls omap app].
        change (omap _ ?l) with (solver_calls l).
        split; [simpl; by rewrite <- IH1|].
        split; [|simpl; intros H; by rewrite IH3].
        simpl. split; [done|].
        destruct (solver_calls _) as [|c' calls] eqn:Hcalls; [done|].
        exists sol, (ls_y0 ls'). done.
      * simpl. done.
Qed.

Lemma solver_calls_map calls : solver_calls (map EvSolveIvp calls) = calls.
Proof. induction calls as [|c calls IH]; simpl; [done|]. by f_equal. Qed.

Lemma propagate_calls_map calls : propagate_calls (map EvSolveIvp calls) = [].
Proof. induction calls as [|c calls IH]; simpl; done. Qed.

Lemma alignment_checks_map calls : alignment_checks (map EvSolveIvp calls) = 0.
Proof. unfold alignment_checks. induction calls as [|c calls IH]; simpl; done. Qed.

(** ** One integration pass *)

(** A pass logs its own entry and then solver calls only; the calls form
    the chain of the segment loop started from the initial [y0]; and if
    the pass completes there is one call per segment. *)
Lemma propagate_spec self inputs pd x_out t_out dx_dz_out dt_dz_out :
  let d := default (propagate_derivs_option (config self)) pd in
  let r := _propagate self inputs pd x_out t_out dx_dz_out dt_dz_out in
  ∃ calls,
    r.1 = EvPropagate d :: map EvSolveIvp calls
    ∧ (calls = []
       ∨ ∃ st x0 theta ti td,
           storage self = Some st
           ∧ extract_inputs self st inputs = Ok (x0, theta, ti, td)
           ∧ calls_chain self st d ti td theta (initial_y0 st d x0)
               (seq 0 (num_segments (_output_grid_data (config self)))) calls)
    ∧ (is_ok r.2 = true
       → length calls = num_segments (_output_grid_data (config self))).
Proof.
  cbv zeta. unfold _propagate. cbv zeta.
  set (d := default _ pd).
  rewrite M_bind_log, M_bind_res. cbn [emit fst snd].
  unfold get_storage.
  destruct (storage self) as [st|] eqn:Hst; rewrite lift_bind;
    [|exists []; cbn [fst snd]; split; [done|]; split; [by left|done]].
  destruct (extract_inputs self st inputs) as [[[[x0 theta] ti] td]|e] eqn:Hex;
    rewrite lift_bind;
    [|exists []; cbn [fst snd]; split; [done|]; split; [by left|done]].
  rewrite M_bind_log, M_bind_res.
  match goal with
  | |- context [propagate_segments self st d ti td theta ?ls ?segs] =>
      destruct (propagate_segments_spec self st d ti td theta segs ls)
        as (H1 & H2 & H3);
      set (r := propagate_segments self st d ti td theta ls segs) in *
  end.
  exists (solver_calls r.1). cbn [ls_y0] in H2.
  split.
  { cbn [app]. f_equal. rewrite H1 at 1.
    destruct r.2; simpl; by rewrite app_nil_r. }
  split; [right; by exists st, x0, theta, ti, td|].
  intros Hok. rewrite H3, length_seq; [done|].
  by destruct r.2.
Qed.

Lemma calls_chain_lookup self st d ti td theta y0 segs calls k c :
  calls_chain self st d ti td theta y0 segs calls →
  calls !! k = Some c →
  ∃ i y, segs !! k = Some i ∧ segment_call self st d ti td theta y i c
         ∧ (k = 0 → y = y0).
Proof.
  revert y0 segs k. induction calls as [|c0 calls IH]; intros y0 segs k H Hk;
    [done|].
  destruct segs as [|i segs]; [done|]. destruct H as [Hc Hrest].
  destruct k as [|k]; simplify_eq/=.
  - by exists i, y0.
  - destruct calls as [|c1 calls]; [done|].
    destruct Hrest as (sol & y1 & _ & _ & Hchain).
    destruct (IH _ _ _ Hchain Hk) as (i' & y & ? & ? & _).
    exists i', y. split; [done|]. split; [done|]. lia.
Qed.

Lemma calls_chain_next self st d ti td theta y0 segs calls k c1 c2 :
  calls_chain self st d ti td theta y0 segs calls →
  calls !! k = Some c1 → calls !! S k = Some c2 →
  ∃ sol, sc_result c1 = Ok sol ∧ nd_last_row (sol_y_T sol) = Ok (sc_y0 c2).
Proof.
  revert y0 segs k. induction calls as [|c0 calls IH];
    intros y0 segs k H Hk1 Hk2; [done|].
  destruct segs as [|i segs]; [done|]. destruct H as [Hc Hrest].
  destruct calls as [|c' calls]; [done|].
  destruct Hrest as (sol & y1 & Hsol & Hlast & Hchain).
  destruct k as [|k]; simplify_eq/=.
  - exists sol. split; [done|].
    destruct segs as [|i' segs]; [done|]. destruct Hchain as [Hc' _].
    by rewrite (call_y0 _ _ _ _ _ _ _ _ _ Hc').
  - eapply IH; eauto.
Qed.

Lemma solver_calls_pass d calls :
  solver_calls (EvPropagate d :: map EvSolveIvp calls) = calls.
Proof. apply solver_calls_map. Qed.

(** ** Segment continuity *)

(** C4. In every propagation the solver is called on the segments in
    index order, and the vector handed to it for segment [k + 1] is the
    last row of the solution it returned for segment [k]: the whole
    propagated vector, no block of it set anew.  A propagation that
    completes has called the solver once per segment. *)
Theorem segments_chained self inputs pd x_out t_out dx_dz_out dt_dz_out :
  let r := _propagate self inputs pd x_out t_out dx_dz_out dt_dz_out in
  let calls := solver_calls r.1 in
  (∀ k c, calls !! k = Some c →
          sc_segment c = k
          ∧ k < num_segments (_output_grid_data (config self)))
  ∧ (∀ k c1 c2, calls !! k = Some c1 → calls !! S k = Some c2 →
       ∃ sol, sc_result c1 = Ok sol
              ∧ nd_last_row (sol_y_T sol) = Ok (sc_y0 c2))
  ∧ (is_ok r.2 = true
     → length calls = num_segments (_output_grid_data (config self))).
Proof.
  cbv zeta.
  destruct (propagate_spec self inputs pd x_out t_out dx_dz_out dt_dz_out)
    as (calls & Hlog & Hchain & Hlen).
  rewrite Hlog, solver_calls_pass.
  destruct Hchain as [->|(st & x0 & theta & ti & td & Hst & Hex & Hchain)].
  { split; [done|]. split; [done|]. exact Hlen. }
  split; [|split; [|exact Hlen]].
  - intros k c Hk.
    destruct (calls_chain_lookup _ _ _ _ _ _ _ _ _ _ _ Hchain Hk)
      as (i & y & Hi & Hcall & _).
    apply lookup_seq in Hi as [-> Hlt].
    split; [apply Hcall|done].
  - intros k c1 c2. by eapply calls_chain_next.
Qed.

(** ** The extracted inputs *)

Lemma rbind_ok {A B} (m : res A) (k : A → res B) b :
  m ≫= k = Ok b → ∃ a, m = Ok a ∧ k a = Ok b.
Proof. destruct m as [a|e]; [|done]. intros H. by exists a. Qed.

Lemma as_scalar_ok v x : as_scalar v = Ok x → v = [x].
Proof. destruct v as [|y [|z v]]; simpl; congruence. Qed.

Lemma np_assign_slice_length v s w v' :
  np_assign_slice v s w = Ok v' → length v' = length v.
Proof.
  unfold np_assign_slice.
  destruct (slice_bounds _ _ _) as [a b] eqn:Hb.
  assert (a ≤ b ∧ b ≤ length v) as [Hab Hbl].
  { unfold slice_bounds, norm_index in Hb.
    destruct (Z.ltb_spec (Z.of_nat s.1) 0), (Z.ltb_spec (Z.of_nat s.2) 0);
      simplify_eq; lia. }
  destruct (decide (length w = b - a)) as [Hw|Hw].
  - intros [= <-]. rewrite !length_app, length_take, length_drop. lia.
  - destruct w as [|c [|c' w]]; try done.
    intros [= <-].
    rewrite !length_app, length_take, length_replicate, length_drop. lia.
Qed.

Lemma unpack_length idxs input_name inputs cat v v' :
  unpack idxs input_name inputs cat v = Ok v' → length v' = length v.
Proof.
  unfold unpack. revert v. induction cat as [|item cat IH]; intros v; simpl.
  - by intros [= <-].
  - destruct (get_input inputs (input_name item.1)) as [val|e]; simpl.
    2: { intros H. exfalso. revert H. clear.
         induction cat as [|? ? IHc]; simpl; [done|]. exact IHc. }
    destruct (get_key idxs item.1) as [s|e]; simpl.
    2: { intros H. exfalso. revert H. clear.
         induction cat as [|? ? IHc]; simpl; [done|]. exact IHc. }
    destruct (np_assign_slice v s val) as [v1|e] eqn:Hv1.
    2: { intros H. exfalso. revert H. clear.
         induction cat as [|? ? IHc]; simpl; [done|]. exact IHc. }
    intros H. rewrite (IH _ H). by eapply np_assign_slice_length.
Qed.

(** What a successful extraction read: the two time inputs are
    one-element arrays, and [x0] and [theta] have their sizes. *)
Lemma extract_inputs_ok self st inputs x0 theta ti td :
  extract_inputs self st inputs = Ok (x0, theta, ti, td) →
  get_input inputs "t_initial" = Ok [ti]
  ∧ get_input inputs "t_duration" = Ok [td]
  ∧ unpack (state_idxs self) state_input_name inputs
      (state_options (config self)) (np_zeros1 (x_size self)) = Ok x0
  ∧ length x0 = x_size self
  ∧ length theta = theta_size self.
Proof.
  unfold extract_inputs. cbv zeta. intros H.
  apply rbind_ok in H as (x0' & Hx0 & H).
  apply rbind_ok in H as (ti' & Hti & H).
  apply rbind_ok in Hti as (vti & Hvti & Hti). apply as_scalar_ok in Hti as ->.
  apply rbind_ok in H as (th1 & Hth1 & H).
  apply rbind_ok in H as (td' & Htd & H).
  apply rbind_ok in Htd as (vtd & Hvtd & Htd). apply as_scalar_ok in Htd as ->.
  apply rbind_ok in H as (th2 & Hth2 & H).
  apply rbind_ok in H as (th3 & Hth3 & H).
  apply rbind_ok in H as (th4 & Hth4 & H).
  apply rbind_ok in H as (th5 & Hth5 & H).
  simplify_eq.
  split; [done|]. split; [done|]. split; [done|].
  split.
  - rewrite (unpack_length _ _ _ _ _ _ Hx0). apply length_replicate.
  - rewrite (unpack_length _ _ _ _ _ _ Hth5), (unpack_length _ _ _ _ _ _ Hth4),
      (unpack_length _ _ _ _ _ _ Hth3).
    unfold np_set_item in Hth1, Hth2.
    repeat case_decide; simplify_eq.
    rewrite !length_insert. apply length_replicate.
Qed.

(** ** Node times *)

(** C7. In every propagation, the output times requested from the solver
    for segment [k] are the images of the segment's normalized node
    positions [ptau] under [t = t_initial + 0.5 * (ptau + 1) * t_duration],
    and the time span is the pair of the first and the last of them. *)
Theorem segment_node_times self inputs pd x_out t_out dx_dz_out dt_dz_out k c :
  solver_calls (_propagate self inputs pd x_out t_out dx_dz_out dt_dz_out).1
    !! k = Some c →
  ∃ ti td seg,
    get_input inputs "t_initial" = Ok [ti]
    ∧ get_input inputs "t_duration" = Ok [td]
    ∧ segment_indices (_output_grid_data (config self)) !! k = Some seg
    ∧ sc_t_eval c
      = map (fun ptau => fadd ti (fmul (fmul fhalf (fadd ptau fone)) td))
          (np_slice (node_ptau (_output_grid_data (config self)))
             (Some (Z.of_nat seg.1)) (Some (Z.of_nat seg.2)))
    ∧ head (sc_t_eval c) = Some (sc_t_span c).1
    ∧ last (sc_t_eval c) = Some (sc_t_span c).2.
Proof.
  destruct (propagate_spec self inputs pd x_out t_out dx_dz_out dt_dz_out)
    as (calls & Hlog & Hchain & _).
  rewrite Hlog, solver_calls_pass. intros Hk.
  destruct Hchain as [->|(st & x0 & theta & ti & td & Hst & Hex & Hchain)];
    [done|].
  destruct (calls_chain_lookup _ _ _ _ _ _ _ _ _ _ _ Hchain Hk)
    as (i & y & Hi & Hcall & _).
  apply lookup_seq in Hi as [-> _].
  destruct (extract_inputs_ok _ _ _ _ _ _ _ Hex) as (Hti & Htd & _).
  destruct (call_t_eval _ _ _ _ _ _ _ _ _ Hcall) as (seg & Hseg & Heval).
  destruct (call_t_span _ _ _ _ _ _ _ _ _ Hcall) as (Hhead & Hlast).
  exists ti, td, seg. done.
Qed.

(** ** The initial propagated vector *)

Lemma unpack_cons idxs input_name inputs item cat v :
  unpack idxs input_name inputs (item :: cat) v
  = (val ← get_input inputs (input_name item.1);
     s ← get_key idxs item.1;
     np_assign_slice v s val) ≫= unpack idxs input_name inputs cat.
Proof.
  unfold unpack. simpl.
  destruct (get_input inputs (input_name item.1)) as [val|e]; simpl.
  2: { induction cat as [|? ? IHc]; simpl; done. }
  destruct (get_key idxs item.1) as [s|e]; simpl.
  2: { induction cat as [|? ? IHc]; simpl; done. }
  destruct (np_assign_slice v s val) as [v1|e]; simpl; [done|].
  induction cat as [|? ? IHc]; simpl; done.
Qed.

(** Unpacking inputs of the declared sizes into consecutive slices writes
    their concatenation. *)
Lemma unpack_concat idxs input_name inputs size_of cat start v vals :
  named_slices idxs cat = Some (slices_from size_of cat start) →
  Forall2 (fun item val =>
             inputs !! input_name item.1 = Some val
             ∧ length val = size_of item.2) cat vals →
  start + total_size size_of cat ≤ length v →
  unpack idxs input_name inputs cat v
  = Ok (take start v ++ concat vals
        ++ drop (start + total_size size_of cat) v).
Proof.
  intros Hn Hv. revert start v Hn.
  induction Hv as [|item val cat vals [Hin Hlen] Hv IH]; intros start v Hn Hle.
  - unfold unpack, total_size. simpl. rewrite Nat.add_0_r.
    by rewrite take_drop.
  - rewrite unpack_cons.
    unfold named_slices, names in Hn. simpl in Hn.
    destruct (idxs !! item.1) as [s|] eqn:Hs; [|done]. simpl in Hn.
    destruct (mapM _ _) as [l|] eqn:Hl; [|done]. simpl in Hn.
    injection Hn as -> ->.
    assert (Ht : total_size size_of (item :: cat)
                 = size_of item.2 + total_size size_of cat)
      by (unfold total_size; done).
    rewrite Ht in *.
    unfold get_input. rewrite Hin. unfold get_key. rewrite Hs.
    cbn [mbind res_bind].
    unfold np_assign_slice. cbn [fst snd].
    rewrite slice_bounds_range by lia.
    rewrite decide_True by lia. cbn [mbind res_bind].
    rewrite (IH (start + size_of item.2)); [|done|].
    2: { rewrite !length_app, length_take, length_drop. lia. }
    f_equal.
    rewrite take_app_ge by (rewrite length_take; lia).
    rewrite length_take, Nat.min_l by lia.
    rewrite take_app_ge by lia.
    replace (start + size_of item.2 - start - length val) with 0 by lia.
    rewrite take_0, app_nil_r.
    rewrite drop_app_ge by (rewrite length_take; lia).
    rewrite length_take, Nat.min_l by lia.
    rewrite drop_app_ge by lia. rewrite drop_drop.
    simpl. rewrite <- !app_assoc. do 3 f_equal.
    match goal with |- drop ?a _ = drop ?b _ => replace a with b by lia end.
    done.
Qed.

(** C6. In every propagation with sensitivities enabled, the vector
    handed to the solver for the first segment is [x0], the unpacked
    initial state values (their concatenation in catalog order when they
    have their declared sizes), followed by the flattened [[I, 0]] (the
    identity in the state columns of [z], zero elsewhere) and by the unit
    vector at column [n_x], the column of [t_initial]. *)
Theorem initial_augmented_state cfg self st inputs pd
    x_out t_out dx_dz_out dt_dz_out c :
  Config_wf cfg →
  Configured cfg self st →
  default (propagate_derivs_option cfg) pd = true →
  head (solver_calls
          (_propagate self inputs pd x_out t_out dx_dz_out dt_dz_out).1)
  = Some c →
  let n_x := x_size self in
  let n_z := z_size self in
  ∃ x0,
    unpack (state_idxs self) state_input_name inputs (state_options cfg)
      (np_zeros1 n_x) = Ok x0
    ∧ (∀ vals,
         Forall2 (fun item val =>
                    inputs !! state_input_name item.1 = Some val
                    ∧ length val = state_size item.2)
                 (state_options cfg) vals →
         x0 = concat vals)
    ∧ np_slice (sc_y0 c) None (Some (Z.of_nat n_x)) = x0
    ∧ np_reshape (np_slice (sc_y0 c) (Some (Z.of_nat n_x))
                    (Some (Z.of_nat (n_x + n_x * n_z)))) n_x n_z
      = Ok (tabulate n_x n_z
              (fun i j => if decide (i = j) then fone else fzero))
    ∧ np_slice (sc_y0 c) (Some (- Z.of_nat n_z)%Z) None
      = unit_vector n_z n_x.
Proof.
  intros Hwf Hc Hd Hhead. cbv zeta.
  destruct (propagate_spec self inputs pd x_out t_out dx_dz_out dt_dz_out)
    as (calls & Hlog & Hchain & _).
  rewrite (cfd_config _ _ _ Hc), Hd in *.
  rewrite Hlog, solver_calls_pass in Hhead.
  destruct Hchain as [->|(st' & x0 & theta & ti & td & Hst & Hex & Hchain)];
    [done|].
  rewrite (cfd_storage _ _ _ Hc) in Hst. injection Hst as <-.
  rewrite head_lookup in Hhead.
  destruct (calls_chain_lookup _ _ _ _ _ _ _ _ _ _ _ Hchain Hhead)
    as (i & y & _ & Hcall & Hy).
  rewrite (call_y0 _ _ _ _ _ _ _ _ _ Hcall), (Hy eq_refl).
  destruct (extract_inputs_ok _ _ _ _ _ _ _ Hex) as (_ & _ & Hx0 & Hlen & _).
  rewrite (cfd_config _ _ _ Hc) in Hx0.
  exists x0. split; [done|]. split.
  { intros vals Hvals.
    pose proof (unpack_concat (state_idxs self) state_input_name inputs
                  state_size (state_options cfg) 0
                  (np_zeros1 (x_size self)) vals) as Hcat.
    rewrite Hx0 in Hcat.
    rewrite (cfd_state_idxs _ _ _ Hc) in Hcat.
    rewrite assign_slices_named in Hcat by apply Hwf.
    specialize (Hcat eq_refl Hvals).
    unfold np_zeros1 in Hcat. rewrite length_replicate in Hcat.
    rewrite (cfd_x_size _ _ _ Hc) in Hcat.
    specialize (Hcat (le_n _)).
    rewrite take_0, drop_ge, app_nil_r in Hcat
      by (rewrite length_replicate; lia).
    by simplify_eq. }
  unfold initial_y0.
  destruct (np_slice_blocks x0 (ravel (_dx_dz_0 st)) (ravel (_dt_dz_0 st))
              (x_size self) (x_size self * z_size self) (z_size self))
    as (Hb1 & Hb2 & Hb3).
  { done. }
  { rewrite (cfd_dx_dz_0 _ _ _ Hc). apply tabulate_data_length. }
  { rewrite (cfd_dt_dz_0 _ _ _ Hc). unfold ravel. simpl.
    by rewrite length_insert, length_replicate. }
  { rewrite (cfd_z_size _ _ _ Hc), (cfd_theta_size _ _ _ Hc). lia. }
  split; [exact Hb1|]. split.
  { rewrite Hb2, (cfd_dx_dz_0 _ _ _ Hc). unfold ravel.
    by rewrite np_reshape_ok by apply tabulate_data_length. }
  rewrite Hb3, (cfd_dt_dz_0 _ _ _ Hc). done.
Qed.

(** ** The cache *)

Lemma propagations_pass d calls :
  propagations (EvPropagate d :: map EvSolveIvp calls) = 1.
Proof.
  unfold propagations.
  change (EvPropagate d :: map EvSolveIvp calls)
    with ([EvPropagate d] ++ map EvSolveIvp calls).
  by rewrite propagate_calls_app, propagate_calls_map.
Qed.

Lemma propagate_calls_pass d calls :
  propagate_calls (EvPropagate d :: map EvSolveIvp calls) = [d].
Proof.
  change (EvPropagate d :: map EvSolveIvp calls)
    with ([EvPropagate d] ++ map EvSolveIvp calls).
  by rewrite propagate_calls_app, propagate_calls_map.
Qed.

Lemma alignment_checks_pass d calls :
  alignment_checks (EvPropagate d :: map EvSolveIvp calls) = 0.
Proof. apply alignment_checks_map. Qed.

(** With an unchanged fingerprint nothing is run. *)
Lemma propagate_if_changed_same self inputs d :
  get_hash inputs = _inputs_cache self →
  propagate_if_changed self inputs d = ([], Ok self).
Proof. intros H. unfold propagate_if_changed. by rewrite decide_False by auto. Qed.

(** With a changed fingerprint one full pass is run, and it leaves the new
    fingerprint in the cache and a derivative buffer that was [None] as it
    was. *)
Lemma propagate_if_changed_diff self st inputs d :
  storage self = Some st →
  get_hash inputs ≠ _inputs_cache self →
  let r := propagate_if_changed self inputs d in
  ∃ calls,
    r.1 = EvPropagate d :: map EvSolveIvp calls
    ∧ (is_ok r.2 = true
       → length calls = num_segments (_output_grid_data (config self)))
    ∧ ∀ self', r.2 = Ok self' →
        _inputs_cache self' = get_hash inputs
        ∧ config self' = config self
        ∧ x_size self' = x_size self
        ∧ ∃ st', storage self' = Some st'
                 ∧ (_dx_dz_out st = None → _dx_dz_out st' = None)
                 ∧ (_dt_dz_out st = None → _dt_dz_out st' = None).
Proof.
  intros Hst Hne. cbv zeta. unfold propagate_if_changed.
  rewrite decide_True by done. unfold get_storage. rewrite Hst, lift_bind.
  rewrite M_bind_log, M_bind_res.
  destruct (propagate_spec self inputs (Some d) (Some (_x_out st))
              (Some (_t_out st)) (_dx_dz_out st) (_dt_dz_out st))
    as (calls & Hlog & _ & Hlen).
  cbn [default] in Hlog. rewrite Hlog. exists calls.
  destruct (_propagate _ _ _ _ _ _ _).2 as [[[[xo to] dxo] dto]|e] eqn:Hres.
  - cbn [fst snd mret M_ret]. rewrite app_nil_r.
    split; [done|]. split; [intros _; by apply Hlen|].
    intros self' [= <-]. cbn.
    split; [done|]. split; [done|]. split; [done|].
    eexists. split; [done|]. cbn. split; by intros ->.
  - rewrite app_nil_r. cbn [fst snd]. split; [done|]. split; done.
Qed.

(** A guarded propagation that returns leaves the fingerprint of its
    inputs in the cache. *)
Lemma propagate_if_changed_cache self inputs d self' :
  (propagate_if_changed self inputs d).2 = Ok self' →
  _inputs_cache self' = get_hash inputs.
Proof.
  destruct (decide (get_hash inputs = _inputs_cache self)) as [Heq|Hne].
  - rewrite propagate_if_changed_same by done. by intros [= <-].
  - destruct (storage self) as [st|] eqn:Hst.
    + destruct (propagate_if_changed_diff self st inputs d Hst Hne)
        as (calls & _ & _ & H).
      intros Hr. by destruct (H _ Hr).
    + unfold propagate_if_changed. rewrite decide_True by done.
      unfold get_storage. rewrite Hst, lift_bind. done.
Qed.

Lemma compute_log self inputs :
  (compute self inputs).1
  = (propagate_if_changed self inputs
       (propagate_derivs_option (config self))).1.
Proof.
  unfold compute. cbv zeta. rewrite M_bind_log.
  destruct (propagate_if_changed _ _ _).2 as [self'|e]; [|by rewrite app_nil_r].
  repeat (rewrite lift_bind;
          match goal with
          | |- context [(match ?r with Ok _ => _ | Raise _ => _ end).1] =>
              destruct r; cbn [fst snd]; try by rewrite app_nil_r
          end).
Qed.

Lemma compute_ok self inputs log self' outputs :
  compute self inputs = (log, Ok (self', outputs)) →
  (propagate_if_changed self inputs
     (propagate_derivs_option (config self))).2 = Ok self'.
Proof.
  intros H. apply (f_equal snd) in H. revert H.
  unfold compute. cbv zeta. rewrite M_bind_res.
  destruct (propagate_if_changed _ _ _).2 as [self1|e]; [|done].
  repeat (rewrite lift_bind;
          match goal with
          | |- context [(match ?r with Ok _ => _ | Raise _ => _ end).2] =>
              destruct r; cbn [fst snd]; try done
          end).
  by intros [= <- _].
Qed.

Lemma compute_partials_log self inputs :
  (compute_partials self inputs).1
  = (propagate_if_changed self inputs true).1.
Proof.
  unfold compute_partials. cbv zeta. rewrite M_bind_log.
  destruct (propagate_if_changed _ _ _).2 as [self'|e]; [|by rewrite app_nil_r].
  repeat (rewrite lift_bind;
          match goal with
          | |- context [(match ?r with Ok _ => _ | Raise _ => _ end).1] =>
              destruct r; cbn [fst snd]; try by rewrite app_nil_r
          end).
Qed.

(** [compute_partials] on derivative buffers that are [None]. *)
Lemma compute_partials_none self st inputs :
  get_hash inputs = _inputs_cache self →
  storage self = Some st →
  _dt_dz_out st = None →
  compute_partials self inputs = ([], Raise TypeError).
Proof.
  intros Hh Hst Hnone. unfold compute_partials. cbv zeta.
  rewrite propagate_if_changed_same by done.
  change (([], Ok self) : M Comp) with (lift (Ok self)).
  rewrite lift_bind. unfold get_storage. rewrite Hst, lift_bind.
  rewrite Hnone, lift_bind. done.
Qed.

Lemma compute_storage self inputs log self' outputs :
  compute self inputs = (log, Ok (self', outputs)) →
  ∃ st', storage self' = Some st'.
Proof.
  intros H. pose proof (compute_ok _ _ _ _ _ H) as Hp.
  apply (f_equal snd) in H. revert H.
  unfold compute. cbv zeta. rewrite M_bind_res, Hp.
  unfold get_storage. destruct (storage self') as [st'|]; [eauto|].
  by rewrite lift_bind.
Qed.

Lemma single_element_changed (inputs : Inputs) name v i x x' :
  inputs !! name = Some v → v !! i = Some x → x' ≠ x →
  <[name := <[i := x']> v]> inputs ≠ inputs.
Proof.
  unfold Inputs in *. intros Hv Hx Hne Heq.
  apply (f_equal (fun m : gmap string (list F) => m !! name)) in Heq.
  cbv beta in Heq.
  rewrite lookup_insert_eq, Hv in Heq. injection Heq as Heq.
  apply (f_equal (fun l => l !! i)) in Heq. cbv beta in Heq.
  rewrite list_lookup_insert_eq in Heq by (by eapply lookup_lt_Some).
  congruence.
Qed.

(** C5. With a collision-free, non-empty fingerprint: [compute] followed
    by [compute_partials] on the same inputs runs at most one integration
    pass; on a fresh component, [compute] twice on the same inputs runs
    exactly one; and after a [compute], changing any single element of
    the inputs changes the fingerprint and makes the next [compute] run a
    full pass, over every segment. *)
Theorem cache_correct :
  (∀ i1 i2, get_hash i1 = get_hash i2 → i1 = i2) →
  (∀ i, get_hash i ≠ "") →
  (∀ self inputs log1 self1 out1,
     compute self inputs = (log1, Ok (self1, out1)) →
     propagations log1 + propagations (compute_partials self1 inputs).1 ≤ 1)
  ∧ (∀ self inputs log1 self1 out1,
       _inputs_cache self = "" →
       compute self inputs = (log1, Ok (self1, out1)) →
       propagations log1 = 1 ∧ propagations (compute self1 inputs).1 = 0)
  ∧ (∀ self inputs log1 self1 out1 name v i x x',
       compute self inputs = (log1, Ok (self1, out1)) →
       inputs !! name = Some v → v !! i = Some x → x' ≠ x →
       let inputs' := <[name := <[i := x']> v]> inputs in
       let r := compute self1 inputs' in
       get_hash inputs' ≠ get_hash inputs
       ∧ propagations r.1 = 1
       ∧ (is_ok r.2 = true
          → length (solver_calls r.1)
            = num_segments (_output_grid_data (config self)))).
Proof.
  intros Hinj Hnonempty. split; [|split].
  - intros self inputs log1 self1 out1 H.
    pose proof (compute_ok _ _ _ _ _ H) as Hp.
    pose proof (propagate_if_changed_cache _ _ _ _ Hp) as Hcache.
    rewrite compute_partials_log, propagate_if_changed_same by done.
    pose proof (compute_log self inputs) as Hlog.
    rewrite H in Hlog. cbn [fst] in Hlog. rewrite Hlog.
    destruct (decide (get_hash inputs = _inputs_cache self)) as [Heq|Hne].
    + rewrite propagate_if_changed_same by done. cbn. lia.
    + unfold propagate_if_changed in Hp |- *.
      rewrite decide_True in Hp |- * by done.
      unfold get_storage in Hp |- *.
      destruct (storage self) as [st|] eqn:Hst; [|done].
      destruct (propagate_if_changed_diff self st inputs
                  (propagate_derivs_option (config self)) Hst Hne)
        as (calls & Hl & _).
      unfold propagate_if_changed in Hl. rewrite decide_True in Hl by done.
      unfold get_storage in Hl. rewrite Hst in Hl.
      rewrite Hl, propagations_pass. cbn. lia.
  - intros self inputs log1 self1 out1 Hfresh H.
    pose proof (compute_ok _ _ _ _ _ H) as Hp.
    pose proof (propagate_if_changed_cache _ _ _ _ Hp) as Hcache.
    split.
    + pose proof (compute_log self inputs) as Hlog.
      rewrite H in Hlog. cbn [fst] in Hlog. rewrite Hlog.
      assert (Hne : get_hash inputs ≠ _inputs_cache self)
        by (rewrite Hfresh; apply Hnonempty).
      destruct (storage self) as [st|] eqn:Hst.
      * destruct (propagate_if_changed_diff self st inputs
                    (propagate_derivs_option (config self)) Hst Hne)
          as (calls & Hl & _).
        by rewrite Hl, propagations_pass.
      * exfalso. revert Hp. unfold propagate_if_changed.
        rewrite decide_True by done. unfold get_storage.
        by rewrite Hst, lift_bind.
    + by rewrite compute_log, propagate_if_changed_same.
  - intros self inputs log1 self1 out1 name v i x x' H Hv Hx Hxx'. cbv zeta.
    pose proof (compute_ok _ _ _ _ _ H) as Hp.
    pose proof (propagate_if_changed_cache _ _ _ _ Hp) as Hcache.
    destruct (compute_storage _ _ _ _ _ H) as (st1 & Hst1).
    assert (Hne : get_hash (<[name := <[i := x']> v]> inputs)
                  ≠ get_hash inputs).
    { intros Heq. apply Hinj in Heq.
      by eapply single_element_changed. }
    split; [done|].
    assert (Hcfg : config self1 = config self).
    { destruct (decide (get_hash inputs = _inputs_cache self)) as [Heq|Hd].
      - rewrite propagate_if_changed_same in Hp by done. by injection Hp as <-.
      - destruct (storage self) as [st|] eqn:Hst.
        + destruct (propagate_if_changed_diff self st inputs
                      (propagate_derivs_option (config self)) Hst Hd)
            as (calls & _ & _ & Hs).
          by destruct (Hs _ Hp) as (_ & ? & _).
        + exfalso. revert Hp. unfold propagate_if_changed.
          rewrite decide_True by done. unfold get_storage.
          by rewrite Hst, lift_bind. }
    rewrite <- Hcache in Hne.
    destruct (propagate_if_changed_diff self1 st1 _
                (propagate_derivs_option (config self1)) Hst1 Hne)
      as (calls & Hl & Hlen & _).
    rewrite compute_log, Hl, propagations_pass, solver_calls_pass.
    split; [done|]. intros Hok. rewrite <- Hcfg. apply Hlen.
    revert Hok. unfold compute. cbv zeta. rewrite M_bind_res.
    destruct (propagate_if_changed self1 _ _).2; [reflexivity|].
    cbn. intros; discriminate.
Qed.


(** ** Setup and the grid alignment check *)

Lemma propagate_if_changed_log self inputs d :
  (propagate_if_changed self inputs d).1 = []
  ∨ ∃ calls,
      (propagate_if_changed self inputs d).1
      = EvPropagate d :: map EvSolveIvp calls.
Proof.
  destruct (decide (get_hash inputs = _inputs_cache self)) as [Heq|Hne].
  - left. by rewrite propagate_if_changed_same.
  - destruct (storage self) as [st|] eqn:Hst.
    + right.
      destruct (propagate_if_changed_diff self st inputs d Hst Hne)
        as (calls & Hl & _).
      eauto.
    + left. unfold propagate_if_changed. rewrite decide_True by done.
      unfold get_storage. by rewrite Hst, lift_bind.
Qed.

Lemma propagate_if_changed_no_check self inputs d :
  alignment_checks (propagate_if_changed self inputs d).1 = 0.
Proof.
  destruct (propagate_if_changed_log self inputs d) as [->|(calls & ->)];
    [done|apply alignment_checks_pass].
Qed.

(** C9. [setup] fails exactly when the input grid and the output grid do
    not have the same segment boundaries, and the failure is the
    [RuntimeError]; the alignment is checked once in [setup], and a
    propagation, [compute] and [compute_partials] never check it. *)
Theorem setup_alignment_check cfg :
  Config_wf cfg →
  let r := setup (__init__ cfg) in
  (is_ok r.2 = false
   ↔ segment_ends (_input_grid_data cfg) ≠ segment_ends (_output_grid_data cfg))
  ∧ (r.2 = Raise RuntimeError
     ↔ segment_ends (_input_grid_data cfg)
       ≠ segment_ends (_output_grid_data cfg))
  ∧ alignment_checks r.1 = 1
  ∧ (∀ self inputs pd x_out t_out dx_dz_out dt_dz_out,
       alignment_checks
         (_propagate self inputs pd x_out t_out dx_dz_out dt_dz_out).1 = 0)
  ∧ (∀ self inputs,
       alignment_checks (compute self inputs).1 = 0
       ∧ alignment_checks (compute_partials self inputs).1 = 0).
Proof.
  intros Hwf. cbv zeta.
  assert (Hsetup :
    setup (__init__ cfg)
    = if is_aligned_with (_input_grid_data cfg) (_output_grid_data cfg)
      then ([EvIsAlignedWith true],
            if standalone_mode cfg
            then configure
                   {| config := cfg; _inputs_cache := "";
                      _num_control_input_nodes :=
                        subset_num_nodes_control_input (input_grid_data cfg);
                      _num_output_rows :=
                        subset_num_nodes_all (_output_grid_data cfg);
                      x_size := 0; state_idxs := ∅; p_size := 0;
                      parameter_idxs := ∅; u_size := 0; up_size := 0;
                      theta_size := 0; z_size := 0; storage := None |}
            else Ok {| config := cfg; _inputs_cache := "";
                       _num_control_input_nodes :=
                         subset_num_nodes_control_input (input_grid_data cfg);
                       _num_output_rows :=
                         subset_num_nodes_all (_output_grid_data cfg);
                       x_size := 0; state_idxs := ∅; p_size := 0;
                       parameter_idxs := ∅; u_size := 0; up_size := 0;
                       theta_size := 0; z_size := 0; storage := None |})
      else ([EvIsAlignedWith false], Raise RuntimeError)).
  { unfold setup. cbv zeta. cbn [config __init__].
    destruct (is_aligned_with _ _); [|reflexivity].
    destruct (standalone_mode cfg); cbn; [|reflexivity].
    by destruct (configure _). }
  rewrite Hsetup. clear Hsetup.
  assert (Hconf : standalone_mode cfg = true →
    is_ok (configure
             {| config := cfg; _inputs_cache := "";
                _num_control_input_nodes :=
                  subset_num_nodes_control_input (input_grid_data cfg);
                _num_output_rows :=
                  subset_num_nodes_all (_output_grid_data cfg);
                x_size := 0; state_idxs := ∅; p_size := 0;
                parameter_idxs := ∅; u_size := 0; up_size := 0;
                theta_size := 0; z_size := 0; storage := None |}) = true).
  { intros _.
    match goal with
    | |- is_ok (configure ?s) = true =>
        destruct (configure_ok cfg s Hwf eq_refl eq_refl eq_refl)
          as (self & st & -> & _)
    end.
    done. }
  unfold is_aligned_with.
  destruct (decide (segment_ends (_input_grid_data cfg)
                    = segment_ends (_output_grid_data cfg))) as [Heq|Hne].
  - rewrite bool_decide_eq_true_2 by done. cbn [fst snd].
    split.
    { split; [|done]. destruct (standalone_mode cfg); [|done].
      rewrite Hconf by done. done. }
    split.
    { split; [|done]. destruct (standalone_mode cfg); [|done].
      specialize (Hconf eq_refl). by destruct (configure _). }
    split; [done|]. split.
    + intros. destruct (propagate_spec self inputs pd x_out t_out dx_dz_out
                          dt_dz_out) as (calls & -> & _).
      apply alignment_checks_pass.
    + intros. rewrite compute_log, compute_partials_log.
      by rewrite !propagate_if_changed_no_check.
  - rewrite bool_decide_eq_false_2 by done. cbn [fst snd].
    split; [done|]. split; [done|]. split; [done|]. split.
    + intros. destruct (propagate_spec self inputs pd x_out t_out dx_dz_out
                          dt_dz_out) as (calls & -> & _).
      apply alignment_checks_pass.
    + intros. rewrite compute_log, compute_partials_log.
      by rewrite !propagate_if_changed_no_check.
Qed.

(** ** No validation of the duration *)

(** Nothing stands between the extracted inputs and the solver: once the
    inputs are extracted, a first segment with nodes is handed to the
    solver, whatever the duration. *)
Lemma propagate_reaches_solver self st inputs pd x_out t_out dx_dz_out
    dt_dz_out x0 theta ti td seg :
  storage self = Some st →
  extract_inputs self st inputs = Ok (x0, theta, ti, td) →
  0 < num_segments (_output_grid_data (config self)) →
  segment_indices (_output_grid_data (config self)) !! 0 = Some seg →
  np_slice (node_ptau (_output_grid_data (config self)))
    (Some (Z.of_nat seg.1)) (Some (Z.of_nat seg.2)) ≠ [] →
  solver_calls (_propagate self inputs pd x_out t_out dx_dz_out dt_dz_out).1
  ≠ [].
Proof.
  intros Hst Hex Hn Hseg Hnodes. unfold _propagate. cbv zeta.
  rewrite M_bind_log. cbn [emit fst snd].
  unfold get_storage. rewrite Hst, lift_bind, Hex, lift_bind.
  rewrite M_bind_log.
  destruct (num_segments _) as [|n]; [lia|]. cbn [seq propagate_segments].
  rewrite M_bind_log.
  match goal with
  | |- context [propagate_segment self st ?d ti td theta ?ls 0] =>
      destruct (propagate_segment_spec self st d ti td theta ls 0)
        as [(_ & _ & Hempty)|(c & -> & _)]
  end.
  - by specialize (Hempty _ Hseg).
  - rewrite !solver_calls_app. done.
Qed.

(** Every solver call of a propagation is the call of a segment, made
    with the extracted [theta]. *)
Lemma propagate_call self st inputs pd x_out t_out dx_dz_out dt_dz_out
    x0 theta ti td k c :
  storage self = Some st →
  extract_inputs self st inputs = Ok (x0, theta, ti, td) →
  solver_calls (_propagate self inputs pd x_out t_out dx_dz_out dt_dz_out).1
    !! k = Some c →
  ∃ y0, segment_call self st
          (default (propagate_derivs_option (config self)) pd)
          ti td theta y0 k c.
Proof.
  intros Hst Hex.
  destruct (propagate_spec self inputs pd x_out t_out dx_dz_out dt_dz_out)
    as (calls & Hlog & Hchain & _).
  rewrite Hlog, solver_calls_pass. intros Hk.
  destruct Hchain as [->|(st' & x0' & theta' & ti' & td' & Hst' & Hex' & Hc)];
    [done|].
  rewrite Hst in Hst'. injection Hst' as <-.
  rewrite Hex in Hex'. injection Hex' as <- <- <- <-.
  destruct (calls_chain_lookup _ _ _ _ _ _ _ _ _ _ _ Hc Hk)
    as (i & y & Hi & Hcall & _).
  apply lookup_seq in Hi as [-> _]. eauto.
Qed.

(** ** The time bounds within [theta] *)





(** ** The column map as a list of assignments *)

Lemma insert_all_app m l1 l2 :
  insert_all m (l1 ++ l2) = insert_all (insert_all m l1) l2.
Proof. apply foldl_app. Qed.

Lemma insert_all_other m entries k :
  k ∉ entries.*1 → insert_all m entries !! k = m !! k.
Proof.
  revert m. induction entries as [|kv entries IH]; intros m Hk; [done|].
  simpl in *. apply not_elem_of_cons in Hk as [Hne Hk].
  rewrite IH by done. by rewrite lookup_insert_ne.
Qed.

Lemma insert_all_lookup m entries k v :
  NoDup entries.*1 → (k, v) ∈ entries → insert_all m entries !! k = Some v.
Proof.
  revert m. induction entries as [|kv entries IH]; intros m Hnd Hin.
  - by apply elem_of_nil in Hin.
  - simpl in *. apply NoDup_cons in Hnd as [Hnotin Hnd].
    apply elem_of_cons in Hin as [<-|Hin].
    + rewrite insert_all_other by done. by rewrite lookup_insert_eq.
    + by apply IH.
Qed.

Lemma total_size_cons size_of item (cat : catalog) :
  total_size size_of (item :: cat) = size_of item.2 + total_size size_of cat.
Proof. reflexivity. Qed.

Lemma dx_dz_wrt_loop_eq output_name s_o input_name size_of cat acc :
  dx_dz_wrt_loop output_name s_o input_name size_of cat acc
  = (acc.1 + s_o * total_size size_of cat,
     insert_all acc.2
       (wrt_entries output_name s_o input_name size_of cat acc.1)).
Proof.
  revert acc. induction cat as [|item cat IH]; intros [idx m].
  - unfold total_size. simpl. do 2 f_equal. lia.
  - unfold dx_dz_wrt_loop in *. cbn [foldl wrt_entries insert_all fst snd].
    rewrite IH. cbn [fst snd]. rewrite total_size_cons. f_equal. lia.
Qed.

Lemma dx_dz_output_step_eq states params controls pcs n acc item :
  dx_dz_output_step states params controls pcs n acc item
  = (acc.1 + output_width states params controls pcs n item,
     insert_all acc.2 (output_entries states params controls pcs n item acc.1)).
Proof.
  destruct acc as [idx m]. unfold dx_dz_output_step, output_entries,
    output_width. cbv zeta. cbn [fst snd].
  rewrite (dx_dz_wrt_loop_eq _ _ state_input_name). cbn [fst snd].
  rewrite (dx_dz_wrt_loop_eq _ _ param_input_name). cbn [fst snd].
  rewrite (dx_dz_wrt_loop_eq _ _ control_input_name). cbn [fst snd].
  rewrite (dx_dz_wrt_loop_eq _ _ polynomial_control_input_name).
  cbn [fst snd]. rewrite !insert_all_app.
  f_equal. unfold dx_dz_state_size, dx_dz_param_size, dx_dz_control_size,
    dx_dz_polynomial_control_size. lia.
Qed.

Lemma build_dx_dz_idxs_eq states params controls pcs n outputs acc :
  foldl (dx_dz_output_step states params controls pcs n) acc outputs
  = (acc.1
     + py_sum (map (output_width states params controls pcs n) outputs),
     insert_all acc.2 (all_entries states params controls pcs n outputs acc.1)).
Proof.
  revert acc. induction outputs as [|item outputs IH]; intros [idx m].
  - simpl. do 2 f_equal. lia.
  - cbn [foldl all_entries]. rewrite dx_dz_output_step_eq, IH.
    cbn [fst snd]. rewrite insert_all_app. f_equal. simpl. lia.
Qed.

(** ** The keys of the column map *)

Lemma wrt_entries_keys output_name s_o input_name size_of cat idx :
  (wrt_entries output_name s_o input_name size_of cat idx).*1
  = map (fun q => (output_name, q)) (map input_name (names cat)).
Proof.
  revert idx. induction cat as [|item cat IH]; intros idx; [done|].
  cbn [wrt_entries]. unfold names in *. simpl. by rewrite IH.
Qed.

Lemma output_entries_keys states params controls pcs n item idx :
  (output_entries states params controls pcs n item idx).*1
  = map (fun q => (state_output_name item.1, q))
        (z_input_names states params controls pcs).
Proof.
  unfold output_entries, z_input_names. cbv zeta.
  rewrite !fmap_app, !wrt_entries_keys. done.
Qed.

#[local] Instance state_input_name_inj : Inj (=) (=) state_input_name.
Proof. intros a b H. by injection H. Qed.
#[local] Instance state_output_name_inj : Inj (=) (=) state_output_name.
Proof. intros a b H. by injection H. Qed.
#[local] Instance param_input_name_inj : Inj (=) (=) param_input_name.
Proof. intros a b H. by injection H. Qed.
#[local] Instance control_input_name_inj : Inj (=) (=) control_input_name.
Proof. intros a b H. by injection H. Qed.
#[local] Instance polynomial_control_input_name_inj :
  Inj (=) (=) polynomial_control_input_name.
Proof. intros a b H. by injection H. Qed.

(** The input names of the different kinds never coincide: their
    prefixes differ. *)
Lemma z_input_names_NoDup states params controls pcs :
  NoDup (names states) → NoDup (names params) → NoDup (names controls) →
  NoDup (names pcs) →
  NoDup (z_input_names states params controls pcs).
Proof.
  intros Hs Hp Hc Hpc. unfold z_input_names.
  repeat (apply NoDup_app; split; [|split]);
    try (apply (NoDup_fmap_2 _); assumption).
  - intros q (a & -> & _)%list_elem_of_fmap Hin.
    rewrite !elem_of_app, !elem_of_cons, elem_of_nil in Hin.
    rewrite !list_elem_of_fmap in Hin.
    destruct Hin as [[H|[H|[]]]|[(b & H & _)|[(b & H & _)|(b & H & _)]]];
      discriminate H.
  - apply NoDup_cons_2; [|apply NoDup_singleton].
    rewrite list_elem_of_singleton. discriminate.
  - intros q Hq Hin.
    rewrite !elem_of_cons, elem_of_nil in Hq.
    rewrite !elem_of_app, !list_elem_of_fmap in Hin.
    destruct Hq as [->|[->|[]]];
      destruct Hin as [(b & H & _)|[(b & H & _)|(b & H & _)]];
      discriminate H.
  - intros q (a & -> & _)%list_elem_of_fmap Hin.
    rewrite !elem_of_app, !list_elem_of_fmap in Hin.
    destruct Hin as [(b & H & _)|(b & H & _)]; discriminate H.
  - intros q (a & -> & _)%list_elem_of_fmap (b & H & _)%list_elem_of_fmap.
    discriminate H.
Qed.

Lemma all_entries_keys_NoDup states params controls pcs n outputs idx :
  NoDup (names states) → NoDup (names params) → NoDup (names controls) →
  NoDup (names pcs) → NoDup (names outputs) →
  NoDup (all_entries states params controls pcs n outputs idx).*1.
Proof.
  intros Hs Hp Hc Hpc.
  pose proof (z_input_names_NoDup _ _ _ _ Hs Hp Hc Hpc) as Hz.
  revert idx. induction outputs as [|item outputs IH]; intros idx Ho.
  - constructor.
  - unfold names in Ho. simpl in Ho. apply NoDup_cons in Ho as [Hnotin Ho].
    cbn [all_entries]. rewrite fmap_app. apply NoDup_app. split; [|split].
    + rewrite output_entries_keys.
      apply (NoDup_fmap_2 (fun q => (state_output_name item.1, q))).
      all: first [exact Hz | by intros a b [= ->]].
    + intros k Hk Hin. rewrite output_entries_keys in Hk.
      apply list_elem_of_fmap in Hk as (q & -> & _).
      apply Hnotin. revert Hin.
      generalize (idx + output_width states params controls pcs n item).
      clear. intros i Hin. revert i Hin.
      induction outputs as [|o outputs IHo]; intros idx Hin.
      * by apply elem_of_nil in Hin.
      * cbn [all_entries] in Hin. rewrite fmap_app in Hin.
        apply elem_of_app in Hin as [Hin|Hin].
        -- rewrite output_entries_keys in Hin.
           apply list_elem_of_fmap in Hin as (q' & [= Heq _] & _).
           change (item.1 = o.1) in Heq. rewrite Heq. by left.
        -- unfold names. simpl. right. exact (IHo _ Hin).
    + by apply IH.
Qed.

(** ** The column map with scalar states *)












Section ScalarStates.

Variables (cfg : Config) (self : Comp) (st : Storage).
Hypothesis Hwf : Config_wf cfg.
Hypothesis Hconf : Configured cfg self st.
Hypothesis Hscalar :
  Forall (fun item => np_prod (shape item.2) = 1) (state_options cfg).

Local Abbreviation n := (subset_num_nodes_control_input (input_grid_data cfg)).
Local Abbreviation entries_of :=
  (output_entries (state_options cfg) (parameter_options cfg)
     (control_options cfg) (polynomial_control_options cfg) n).
Local Abbreviation entries :=
  (all_entries (state_options cfg) (parameter_options cfg)
     (control_options cfg) (polynomial_control_options cfg) n).
Local Abbreviation width :=
  (output_width (state_options cfg) (parameter_options cfg)
     (control_options cfg) (polynomial_control_options cfg) n).
Local Abbreviation input_names :=
  (z_input_names (state_options cfg) (parameter_options cfg)
     (control_options cfg) (polynomial_control_options cfg)).









Lemma insert_all_mapM (l : list ((string * string) * colsel)) :
  NoDup l.*1 →
  mapM (fun key => insert_all ∅ l !! key) l.*1 = Some l.*2.
Proof.
  intros Hnd. apply mapM_Some_2, Forall2_fmap, Forall_Forall2_diag.
  apply Forall_forall. intros [key sel] Hin. by apply insert_all_lookup.
Qed.

End ScalarStates.





(** * Further properties of the component *)

(** ** The column map, for states of any shape *)

Lemma wrt_entries_tiles output_name s_o input_name size_of cat idx :
  tiles idx
    (map colsel_range
       (wrt_entries output_name s_o input_name size_of cat idx).*2)
    (idx + s_o * total_size size_of cat).
Proof.
  revert idx. induction cat as [|item cat IH]; intros idx.
  - unfold total_size. simpl. lia.
  - cbn [wrt_entries]. cbv zeta. rewrite fmap_cons. cbn [map snd colsel_range].
    split; [done|]. split; [cbn [fst snd]; lia|]. cbn [snd].
    rewrite total_size_cons.
    replace (idx + s_o * (size_of item.2 + total_size size_of cat))
      with (idx + s_o * size_of item.2 + s_o * total_size size_of cat) by lia.
    apply IH.
Qed.

Lemma output_entries_tiles_any states params controls pcs n item idx :
  tiles idx
    (map colsel_range (output_entries states params controls pcs n item idx).*2)
    (idx + output_width states params controls pcs n item).
Proof.
  unfold output_entries, output_width. cbv zeta.
  rewrite !fmap_app.
  eapply tiles_app; [apply wrt_entries_tiles|].
  eapply (tiles_app _ _ (idx + np_prod (shape item.2)
                                * total_size dx_dz_state_size states + 2)).
  { simpl. repeat split; lia. }
  eapply tiles_app; [apply wrt_entries_tiles|].
  eapply tiles_app; [apply wrt_entries_tiles|].
  match goal with
  | |- tiles ?a _ ?b =>
      replace b with (a + np_prod (shape item.2)
                          * total_size dx_dz_polynomial_control_size pcs) by lia
  end.
  apply wrt_entries_tiles.
Qed.

Lemma all_entries_tiles_any states params controls pcs n outputs idx :
  tiles idx
    (map colsel_range (all_entries states params controls pcs n outputs idx).*2)
    (idx + py_sum (map (output_width states params controls pcs n) outputs)).
Proof.
  revert idx. induction outputs as [|item outputs IH]; intros idx.
  - simpl. lia.
  - cbn [all_entries]. rewrite fmap_app, map_app.
    eapply tiles_app; [apply output_entries_tiles_any|].
    cbn [map py_sum foldr]. rewrite Nat.add_assoc. apply IH.
Qed.

Lemma all_entries_keys_any states params controls pcs n outputs idx :
  (all_entries states params controls pcs n outputs idx).*1
  = flat_map (fun item => map (fun q => (state_output_name item.1, q))
                              (z_input_names states params controls pcs))
             outputs.
Proof.
  revert idx. induction outputs as [|item outputs IH]; intros idx; [done|].
  cbn [all_entries flat_map]. by rewrite fmap_app, output_entries_keys, IH.
Qed.

Lemma insert_all_dom m (l : list ((string * string) * colsel)) :
  dom (insert_all m l) = dom m ∪ list_to_set l.*1.
Proof.
  revert m. induction l as [|[k v] l IH]; intros m.
  - simpl. by rewrite union_empty_r_L.
  - cbn [insert_all foldl]. fold (insert_all (<[k := v]> m) l).
    rewrite IH, dom_insert_L. simpl.
    by rewrite (assoc_L (∪)), (comm_L (∪) (dom m)).
Qed.

(** X1. For catalogs with distinct names and states of any shape, the
    column map built by [_build_dx_dz_idxs] has exactly the (output state,
    input quantity) pairs as its keys, and the column ranges it stores,
    taken in the order of assignment, tile [[0, n)] where [n] is the final
    value of the column counter: for every output state of size [s_o], the
    sum over the inputs of [s_o] times the input's size, plus two.  No two
    ranges overlap and no column below [n] is left out. *)
Theorem column_map_tiles states params controls pcs n :
  NoDup (names states) → NoDup (names params) → NoDup (names controls) →
  NoDup (names pcs) →
  let r := _build_dx_dz_idxs_counted states params controls pcs n in
  let keys := column_map_keys states params controls pcs in
  dom r.2 = list_to_set keys
  ∧ r.2 = _build_dx_dz_idxs states params controls pcs n
  ∧ r.1 = py_sum (map (output_width states params controls pcs n) states)
  ∧ ∃ sels,
      mapM (fun key => r.2 !! key) keys = Some sels
      ∧ length sels = length keys
      ∧ tiles 0 (map colsel_range sels) r.1.
Proof.
  intros Hs Hp Hc Hpc. cbv zeta. unfold _build_dx_dz_idxs.
  unfold _build_dx_dz_idxs_counted. rewrite build_dx_dz_idxs_eq.
  cbn [fst snd]. unfold column_map_keys.
  rewrite <- (all_entries_keys_any states params controls pcs n states 0).
  set (l := all_entries states params controls pcs n states 0).
  split; [by rewrite insert_all_dom, dom_empty_L, union_empty_l_L|].
  split; [done|]. split; [done|].
  exists l.*2. split.
  - apply insert_all_mapM. by apply all_entries_keys_NoDup.
  - split; [by rewrite !length_fmap|].
    apply (all_entries_tiles_any states params controls pcs n states 0).
Qed.

(** ** Failure of the storage configuration *)



(** ** One position for a quantity in [p], [theta] and [z] *)

Lemma assign_slices_shift size_of cat a start idxs :
  (assign_slices size_of cat (a + start) (shift a <$> idxs)).2
  = shift a <$> (assign_slices size_of cat start idxs).2.
Proof.
  unfold assign_slices. revert start idxs.
  induction cat as [|item cat IH]; intros start idxs; [done|].
  cbn [foldl fst snd].
  replace (a + start + size_of item.2) with (a + (start + size_of item.2))
    by lia.
  rewrite <- IH. do 2 f_equal.
  rewrite fmap_insert. unfold shift at 2. cbn [fst snd].
  do 2 f_equal; lia.
Qed.

Lemma assign_slices_shift_empty size_of cat a start :
  (assign_slices size_of cat (a + start) ∅).2
  = shift a <$> (assign_slices size_of cat start ∅).2.
Proof. by rewrite <- assign_slices_shift, fmap_empty. Qed.

(** X3. After [configure], a quantity has one position relative to the
    start of its block in every vector that holds it: the slice of a
    parameter in [theta] is its slice in [p] moved up by 2, the slices of a
    parameter, a control and a polynomial control in [z] are their slices
    in [theta] moved up by [n_x], and a state has the same slice in [z] as
    in [x].  The dictionaries built by the separate loops of
    [_configure_parameters], [_configure_states] and [_configure_storage]
    have the same keys. *)
Theorem idxs_consistent cfg self :
  configure (__init__ cfg) = Ok self →
  ∃ st,
    storage self = Some st
    ∧ _parameter_idxs_in_theta st = shift 2 <$> parameter_idxs self
    ∧ _parameter_idxs_in_z st
      = shift (x_size self) <$> _parameter_idxs_in_theta st
    ∧ _control_idxs_in_z st
      = shift (x_size self) <$> _control_idxs_in_theta st
    ∧ _polynomial_control_idxs_in_z st
      = shift (x_size self) <$> _polynomial_control_idxs_in_theta st
    ∧ _state_idxs_in_z st = state_idxs self.
Proof.
  unfold configure, _configure_storage. cbv zeta.
  cbn [config _inputs_cache _num_control_input_nodes _num_output_rows x_size
    state_idxs p_size parameter_idxs u_size up_size theta_size z_size storage
    __init__].
  intros H.
  apply rbind_ok in H as (w & _ & H).
  apply rbind_ok in H as (dx & _ & H).
  apply rbind_ok in H as (dt & _ & H).
  apply rbind_ok in H as (dth & _ & H).
  injection H as <-. eexists. split; [reflexivity|].
  cbn [x_size parameter_idxs state_idxs _parameter_idxs_in_theta
    _parameter_idxs_in_z _control_idxs_in_z _control_idxs_in_theta
    _polynomial_control_idxs_in_z _polynomial_control_idxs_in_theta
    _state_idxs_in_z].
  unfold _configure_parameters, _configure_states.
  set (n_x := (assign_slices state_size (state_options cfg) 0 ∅).1).
  split.
  { rewrite <- (assign_slices_shift_empty _ _ 2 0). done. }
  split.
  { rewrite <- (assign_slices_shift_empty _ _ n_x 2). done. }
  split.
  { rewrite <- assign_slices_shift_empty. do 2 f_equal.
    rewrite !assign_slices_fst. lia. }
  split.
  { rewrite <- assign_slices_shift_empty. do 2 f_equal.
    rewrite !assign_slices_fst. lia. }
  done.
Qed.

(** ** The packing of the inputs into [x0] and [theta] *)

Lemma length_concat_sizes size_of input_name (inputs : Inputs) (cat : catalog)
    vals :
  Forall2 (fun item val =>
             inputs !! input_name item.1 = Some val
             ∧ length val = size_of item.2) cat vals →
  length (concat vals) = total_size size_of cat.
Proof.
  unfold total_size. induction 1 as [|item val cat vals [_ Hl] _ IH]; [done|].
  simpl. by rewrite length_app, Hl, IH.
Qed.

(** Writing a block of [n] values right after the part [h] already
    filled, in a vector still zero from there on. *)
Lemma assign_block (h P : list F) n m a :
  length h = a → length P = n →
  take a (h ++ replicate (n + m) fzero) ++ P
  ++ drop (a + n) (h ++ replicate (n + m) fzero)
  = (h ++ P) ++ replicate m fzero.
Proof.
  intros <- <-.
  rewrite take_app_length, drop_app_add, drop_replicate.
  rewrite <- (assoc_L (++)). do 3 f_equal. lia.
Qed.

Lemma extract_inputs_packed cfg self st inputs ti td xs ps us ups :
  Config_wf cfg → Configured cfg self st →
  inputs !! "t_initial" = Some [ti] → inputs !! "t_duration" = Some [td] →
  Forall2 (fun item val =>
             inputs !! state_input_name item.1 = Some val
             ∧ length val = state_size item.2) (state_options cfg) xs →
  Forall2 (fun item val =>
             inputs !! param_input_name item.1 = Some val
             ∧ length val = param_size item.2) (parameter_options cfg) ps →
  Forall2 (fun item val =>
             inputs !! control_input_name item.1 = Some val
             ∧ length val
               = control_param_size
                   (subset_num_nodes_control_input (input_grid_data cfg))
                   item.2) (control_options cfg) us →
  Forall2 (fun item val =>
             inputs !! polynomial_control_input_name item.1 = Some val
             ∧ length val = polynomial_control_param_size item.2)
          (polynomial_control_options cfg) ups →
  extract_inputs self st inputs
  = Ok (concat xs, [ti; td] ++ concat ps ++ concat us ++ concat ups, ti, td).
Proof.
  intros Hwf Hc Hti Htd Hxs Hps Hus Hups.
  pose proof (length_concat_sizes _ _ _ _ _ Hxs) as Hlx.
  pose proof (length_concat_sizes _ _ _ _ _ Hps) as Hlp.
  pose proof (length_concat_sizes _ _ _ _ _ Hus) as Hlu.
  pose proof (length_concat_sizes _ _ _ _ _ Hups) as Hlup.
  unfold extract_inputs. cbv zeta. rewrite (cfd_config _ _ _ Hc).
  rewrite (unpack_concat _ _ _ state_size _ 0 _ xs); [|
    rewrite (cfd_state_idxs _ _ _ Hc); apply assign_slices_named, Hwf
    | done
    | unfold np_zeros1; rewrite length_replicate, (cfd_x_size _ _ _ Hc); lia].
  rewrite take_0, drop_ge, app_nil_r
    by (unfold np_zeros1; rewrite length_replicate, (cfd_x_size _ _ _ Hc); lia).
  cbn [mbind res_bind]. unfold get_input. rewrite Hti, Htd.
  cbn [mbind res_bind as_scalar].
  rewrite (cfd_theta_size _ _ _ Hc), (cfd_p_size _ _ _ Hc),
    (cfd_u_size _ _ _ Hc), (cfd_up_size _ _ _ Hc).
  rewrite <- Hlp, <- Hlu, <- Hlup.
  set (n_p := length (concat ps)). set (n_u := length (concat us)).
  set (n_up := length (concat ups)).
  unfold np_zeros1, np_set_item.
  rewrite decide_True by (rewrite length_replicate; lia).
  cbn [mbind res_bind].
  rewrite decide_True by (rewrite length_insert, length_replicate; lia).
  cbn [mbind res_bind].
  change (<[1:=td]> (<[0:=ti]> (replicate (2 + n_p + n_u + n_up) fzero)))
    with ([ti; td] ++ replicate (n_p + n_u + n_up) fzero).
  rewrite (unpack_concat _ _ _ param_size _ 2 _ ps); [|
    rewrite (cfd_parameter_idxs_in_theta _ _ _ Hc);
      apply assign_slices_named, Hwf
    | done
    | rewrite length_app, length_replicate, <- Hlp; simpl; lia].
  cbn [mbind res_bind]. rewrite <- Hlp. fold n_p.
  rewrite <- (Nat.add_assoc n_p).
  rewrite (assign_block [ti; td] (concat ps) n_p (n_u + n_up) 2) by done.
  rewrite (unpack_concat _ _ _
             (control_param_size
                (subset_num_nodes_control_input (input_grid_data cfg)))
             _ (2 + n_p) _ us); [|
    rewrite (cfd_control_idxs_in_theta _ _ _ Hc), (cfd_p_size _ _ _ Hc),
      <- Hlp; apply assign_slices_named, Hwf
    | done
    | rewrite !length_app, length_replicate, <- Hlu; simpl; fold n_p n_u; lia].
  cbn [mbind res_bind]. rewrite <- Hlu. fold n_u.
  rewrite (assign_block ([ti; td] ++ concat ps) (concat us) n_u n_up (2 + n_p))
    by (done || (rewrite length_app; done)).
  rewrite (unpack_concat _ _ _ polynomial_control_param_size _
             (2 + n_p + n_u) _ ups); [|
    rewrite (cfd_polynomial_control_idxs_in_theta _ _ _ Hc),
      (cfd_p_size _ _ _ Hc), (cfd_u_size _ _ _ Hc), <- Hlp, <- Hlu;
      apply assign_slices_named, Hwf
    | done
    | rewrite !length_app, length_replicate, <- Hlup; simpl;
      fold n_p n_u n_up; lia].
  cbn [mbind res_bind]. rewrite <- Hlup. fold n_up.
  replace n_up with (n_up + 0) at 1 3 by lia.
  rewrite (assign_block (([ti; td] ++ concat ps) ++ concat us) (concat ups)
             n_up 0 (2 + n_p + n_u))
    by (done || (rewrite !length_app; simpl; fold n_p n_u; lia)).
  simpl. rewrite app_nil_r, <- !(assoc_L (++)). done.
Qed.

(** X4. On a configured component, with every input present at its
    declared size, a propagation hands the solver, at every segment, the
    parameter vector [theta] made of [t_initial], [t_duration], the
    parameter values, the control values and the polynomial control
    values, each flattened, in catalog order; nothing of [theta] is left
    at the zero it was allocated with.  The extraction does not fail: a
    first segment with nodes reaches the solver. *)
Theorem theta_packed cfg self st inputs ti td xs ps us ups pd
    x_out t_out dx_dz_out dt_dz_out :
  Config_wf cfg → Configured cfg self st →
  inputs !! "t_initial" = Some [ti] → inputs !! "t_duration" = Some [td] →
  Forall2 (fun item val =>
             inputs !! state_input_name item.1 = Some val
             ∧ length val = state_size item.2) (state_options cfg) xs →
  Forall2 (fun item val =>
             inputs !! param_input_name item.1 = Some val
             ∧ length val = param_size item.2) (parameter_options cfg) ps →
  Forall2 (fun item val =>
             inputs !! control_input_name item.1 = Some val
             ∧ length val
               = control_param_size
                   (subset_num_nodes_control_input (input_grid_data cfg))
                   item.2) (control_options cfg) us →
  Forall2 (fun item val =>
             inputs !! polynomial_control_input_name item.1 = Some val
             ∧ length val = polynomial_control_param_size item.2)
          (polynomial_control_options cfg) ups →
  let r := _propagate self inputs pd x_out t_out dx_dz_out dt_dz_out in
  (∀ k c, solver_calls r.1 !! k = Some c →
          sc_theta c = [ti; td] ++ concat ps ++ concat us ++ concat ups
          ∧ length (sc_theta c) = theta_size self)
  ∧ (∀ seg,
       0 < num_segments (_output_grid_data cfg) →
       segment_indices (_output_grid_data cfg) !! 0 = Some seg →
       np_slice (node_ptau (_output_grid_data cfg))
         (Some (Z.of_nat seg.1)) (Some (Z.of_nat seg.2)) ≠ [] →
       solver_calls r.1 ≠ []).
Proof.
  intros Hwf Hc Hti Htd Hxs Hps Hus Hups. cbv zeta.
  pose proof (extract_inputs_packed _ _ _ _ _ _ _ _ _ _
                Hwf Hc Hti Htd Hxs Hps Hus Hups) as Hex.
  split.
  - intros k c Hk.
    destruct (propagate_call _ _ _ _ _ _ _ _ _ _ _ _ _ _
                (cfd_storage _ _ _ Hc) Hex Hk) as (y0 & Hcall).
    rewrite (call_theta _ _ _ _ _ _ _ _ _ Hcall). split; [done|].
    by destruct (extract_inputs_ok _ _ _ _ _ _ _ Hex) as (_ & _ & _ & _ & ->).
  - intros seg Hn Hseg Hnodes.
    eapply propagate_reaches_solver;
      rewrite ?(cfd_config _ _ _ Hc); try done. apply Hc.
Qed.

(** ** Missing inputs *)

Lemma unpack_raise idxs input_name (inputs : Inputs) (cat : catalog) e :
  foldl (fun acc item =>
           v ← acc;
           val ← get_input inputs (input_name item.1);
           s ← get_key idxs item.1;
           np_assign_slice v s val) (Raise e) cat = Raise e.
Proof. induction cat as [|item cat IH]; [done|]. simpl. exact IH. Qed.

Lemma unpack_present idxs input_name inputs cat v v' item :
  unpack idxs input_name inputs cat v = Ok v' → item ∈ cat →
  is_Some (inputs !! input_name item.1).
Proof.
  revert v. induction cat as [|i cat IH]; intros v H Hin.
  - by apply elem_of_nil in Hin.
  - rewrite unpack_cons in H. apply rbind_ok in H as (v1 & H1 & H).
    apply elem_of_cons in Hin as [->|Hin]; [|by eapply IH].
    apply rbind_ok in H1 as (val & Hval & _). unfold get_input in Hval.
    by destruct (inputs !! input_name i.1).
Qed.

Lemma extract_inputs_present self st inputs r name :
  extract_inputs self st inputs = Ok r →
  name ∈ z_input_names (state_options (config self))
           (parameter_options (config self)) (control_options (config self))
           (polynomial_control_options (config self)) →
  is_Some (inputs !! name).
Proof.
  unfold extract_inputs. cbv zeta. intros H Hin.
  apply rbind_ok in H as (x0 & Hx0 & H).
  apply rbind_ok in H as (ti & Hti & H).
  apply rbind_ok in H as (th0 & _ & H).
  apply rbind_ok in H as (td & Htd & H).
  apply rbind_ok in H as (th1 & _ & H).
  apply rbind_ok in H as (th2 & Hp & H).
  apply rbind_ok in H as (th3 & Hu & H).
  apply rbind_ok in H as (th4 & Hup & _).
  apply rbind_ok in Hti as (vi & Hvi & _).
  apply rbind_ok in Htd as (vd & Hvd & _).
  unfold get_input in Hvi, Hvd.
  unfold z_input_names, names in Hin.
  rewrite !elem_of_app, !elem_of_cons, elem_of_nil in Hin.
  destruct Hin as [Hin|[[->|[->|[]]]|[Hin|[Hin|Hin]]]].
  - apply list_elem_of_fmap in Hin as (n & -> & Hn).
    apply list_elem_of_fmap in Hn as (item & -> & Hitem).
    by eapply unpack_present.
  - by destruct (inputs !! "t_initial").
  - by destruct (inputs !! "t_duration").
  - apply list_elem_of_fmap in Hin as (n & -> & Hn).
    apply list_elem_of_fmap in Hn as (item & -> & Hitem).
    by eapply unpack_present.
  - apply list_elem_of_fmap in Hin as (n & -> & Hn).
    apply list_elem_of_fmap in Hn as (item & -> & Hitem).
    by eapply unpack_present.
  - apply list_elem_of_fmap in Hin as (n & -> & Hn).
    apply list_elem_of_fmap in Hn as (item & -> & Hitem).
    by eapply unpack_present.
Qed.

(** X5. A propagation reads every input before the first segment: if any
    of the inputs (an initial state, [t_initial], [t_duration], a
    parameter, a control or a polynomial control) is missing, [_propagate]
    raises and the solver is never called. *)
Theorem propagate_missing_input self inputs pd x_out t_out dx_dz_out
    dt_dz_out name :
  name ∈ z_input_names (state_options (config self))
           (parameter_options (config self)) (control_options (config self))
           (polynomial_control_options (config self)) →
  inputs !! name = None →
  let r := _propagate self inputs pd x_out t_out dx_dz_out dt_dz_out in
  is_ok r.2 = false
  ∧ r.1 = [EvPropagate (default (propagate_derivs_option (config self)) pd)]
  ∧ solver_calls r.1 = [].
Proof.
  intros Hin Hnone. cbv zeta. unfold _propagate. cbv zeta.
  unfold emit. rewrite M_bind_log, M_bind_res. cbn [fst snd].
  rewrite lift_bind. destruct (get_storage self) as [st|e]; [|done].
  rewrite lift_bind.
  destruct (extract_inputs self st inputs) as [r|e] eqn:Hex; [|done].
  destruct (extract_inputs_present _ _ _ _ _ Hex Hin) as [v Hv]. congruence.
Qed.

(** ** Use before configuration *)

Lemma propagate_unconfigured self inputs pd x_out t_out dx_dz_out dt_dz_out :
  storage self = None →
  _propagate self inputs pd x_out t_out dx_dz_out dt_dz_out
  = ([EvPropagate (default (propagate_derivs_option (config self)) pd)],
     Raise AttributeError).
Proof.
  intros Hst. unfold _propagate, get_storage. cbv zeta. rewrite Hst. done.
Qed.

Lemma propagate_if_changed_unconfigured self inputs d :
  storage self = None →
  propagate_if_changed self inputs d = ([], Raise AttributeError)
  ∨ propagate_if_changed self inputs d = ([], Ok self).
Proof.
  intros Hst. unfold propagate_if_changed, get_storage. cbv zeta.
  rewrite Hst. destruct (decide _); [left|right]; done.
Qed.

Lemma compute_unconfigured self inputs :
  storage self = None →
  compute self inputs = ([], Raise AttributeError)
  ∧ compute_partials self inputs = ([], Raise AttributeError).
Proof.
  intros Hst. unfold compute, compute_partials. cbv zeta.
  split.
  - destruct (propagate_if_changed_unconfigured self inputs
                (propagate_derivs_option (config self)) Hst) as [-> | ->];
      [done|].
    change (([], Ok self) : M Comp) with (lift (Ok self)).
    rewrite lift_bind. unfold get_storage. by rewrite Hst.
  - destruct (propagate_if_changed_unconfigured self inputs true Hst)
      as [-> | ->]; [done|].
    change (([], Ok self) : M Comp) with (lift (Ok self)).
    rewrite lift_bind. unfold get_storage. by rewrite Hst.
Qed.

(** X6. The arrays and index maps of the component exist only once the
    configure methods have run.  On a component that was only constructed,
    [compute], [compute_partials] and [_propagate] raise [AttributeError],
    and the solver is not called.  Outside stand-alone mode [setup] runs
    none of the configure methods: it only records the number of output
    rows, and the component it leaves fails in the same way until the
    enclosing phase has configured it. *)
Theorem use_before_configure cfg inputs :
  compute (__init__ cfg) inputs = ([], Raise AttributeError)
  ∧ compute_partials (__init__ cfg) inputs = ([], Raise AttributeError)
  ∧ (∀ pd x_out t_out dx_dz_out dt_dz_out,
       _propagate (__init__ cfg) inputs pd x_out t_out dx_dz_out dt_dz_out
       = ([EvPropagate (default (propagate_derivs_option cfg) pd)],
          Raise AttributeError))
  ∧ (standalone_mode cfg = false →
     ∀ self, (setup (__init__ cfg)).2 = Ok self →
       storage self = None
       ∧ _num_output_rows self = subset_num_nodes_all (_output_grid_data cfg)
       ∧ x_size self = 0 ∧ z_size self = 0
       ∧ compute self inputs = ([], Raise AttributeError)
       ∧ compute_partials self inputs = ([], Raise AttributeError)).
Proof.
  destruct (compute_unconfigured (__init__ cfg) inputs eq_refl) as [H1 H2].
  split; [exact H1|]. split; [exact H2|]. split.
  { intros. by rewrite propagate_unconfigured. }
  intros Hmode self. unfold setup. cbv zeta. rewrite M_bind_res.
  cbn [fst snd config __init__]. rewrite Hmode.
  destruct (is_aligned_with _ _); cbn [negb]; [|done].
  intros [= <-]. cbn [storage _num_output_rows x_size z_size].
  split; [done|]. split; [done|]. split; [done|]. split; [done|].
  by apply compute_unconfigured.
Qed.

(** ** Partials without derivative buffers *)

(** X9. When the derivative buffers were allocated as [None]
    ([propagate_derivs] off), [compute_partials] never returns, whatever
    the inputs and whatever the cache holds.  If the fingerprint of the
    inputs differs from the cached one it first runs a pass with the
    derivatives forced on, which integrates into arrays allocated inside
    [_propagate] and dropped on return; once that pass has completed, or
    when it was skipped, subscripting the buffer that is still [None]
    raises [TypeError]. *)
Theorem compute_partials_without_buffers self st inputs :
  storage self = Some st → _dt_dz_out st = None →
  let r := compute_partials self inputs in
  is_ok r.2 = false
  ∧ (get_hash inputs ≠ _inputs_cache self → propagate_calls r.1 = [true])
  ∧ (get_hash inputs = _inputs_cache self → r = ([], Raise TypeError))
  ∧ (is_ok (propagate_if_changed self inputs true).2 = true →
     r.2 = Raise TypeError).
Proof.
  intros Hst Hnone. cbv zeta.
  destruct (decide (get_hash inputs = _inputs_cache self)) as [Heq|Hne].
  { rewrite (compute_partials_none _ _ _ Heq Hst Hnone). done. }
  destruct (propagate_if_changed_diff self st inputs true Hst Hne)
    as (calls & Hlog & _ & Hok).
  assert (Hres : ∀ self', (propagate_if_changed self inputs true).2 = Ok self' →
                          (compute_partials self inputs).2 = Raise TypeError).
  { intros self' Hself'. unfold compute_partials. cbv zeta.
    rewrite M_bind_res, Hself'. cbv beta iota.
    destruct (Hok self' Hself') as (_ & _ & _ & st' & Hst' & _ & Hdt).
    unfold get_storage. rewrite Hst', lift_bind. cbv beta iota.
    rewrite (Hdt Hnone), lift_bind. done. }
  split.
  { destruct (propagate_if_changed self inputs true).2 as [self'|e] eqn:Hp.
    - by rewrite (Hres self' eq_refl).
    - unfold compute_partials. cbv zeta. by rewrite M_bind_res, Hp. }
  split.
  { intros _. by rewrite compute_partials_log, Hlog, propagate_calls_pass. }
  split; [done|].
  destruct (propagate_if_changed self inputs true).2 as [self'|e] eqn:Hp;
    [|done].
  intros _. by apply (Hres self').
Qed.

(** ** What one pass of the segment loop leaves *)





(** ** Propagation of the states alone *)



(** ** A segment without nodes *)

(** X8. The time span of a segment is read off its first and last node
    time, so a segment without nodes cannot be integrated: if segment [k]
    of the output grid has no node, the propagation fails, and the solver
    was called for segments before [k] only. *)
Theorem segment_without_nodes self inputs pd x_out t_out dx_dz_out dt_dz_out
    k seg :
  k < num_segments (_output_grid_data (config self)) →
  segment_indices (_output_grid_data (config self)) !! k = Some seg →
  np_slice (node_ptau (_output_grid_data (config self)))
    (Some (Z.of_nat seg.1)) (Some (Z.of_nat seg.2)) = [] →
  let r := _propagate self inputs pd x_out t_out dx_dz_out dt_dz_out in
  is_ok r.2 = false
  ∧ length (solver_calls r.1) ≤ k
  ∧ ∀ c, c ∈ solver_calls r.1 → sc_segment c < k.
Proof.
  intros Hk Hseg Hempty. cbv zeta.
  destruct (propagate_spec self inputs pd x_out t_out dx_dz_out dt_dz_out)
    as (calls & Hlog & Hchain & Hlen).
  rewrite Hlog, solver_calls_pass.
  assert (Hnone : calls !! k = None).
  { destruct (calls !! k) as [c|] eqn:Hc; [|done]. exfalso.
    destruct Hchain as [->|(st & x0 & theta & ti & td & Hst & Hex & Hchain)];
      [done|].
    destruct (calls_chain_lookup _ _ _ _ _ _ _ _ _ _ _ Hchain Hc)
      as (i & y & Hi & Hcall & _).
    apply lookup_seq in Hi as [-> _]. cbn [Nat.add] in Hcall.
    destruct Hcall as [_ _ (seg' & Hseg' & Hev) [Hh _] _ _ _ _].
    rewrite Hseg in Hseg'. injection Hseg' as <-.
    rewrite Hev, Hempty in Hh. done. }
  apply lookup_ge_None in Hnone.
  split; [|split].
  - destruct (_propagate _ _ _ _ _ _ _).2; [|done].
    specialize (Hlen eq_refl). lia.
  - done.
  - intros c Hc. apply list_elem_of_lookup in Hc as [j Hj].
    pose proof (lookup_lt_Some _ _ _ Hj) as Hjl.
    destruct Hchain as [->|(st & x0 & theta & ti & td & Hst & Hex & Hchain)];
      [done|].
    destruct (calls_chain_lookup _ _ _ _ _ _ _ _ _ _ _ Hchain Hj)
      as (i & y & Hi & Hcall & _).
    apply lookup_seq in Hi as [-> _].
    rewrite (call_segment _ _ _ _ _ _ _ _ _ Hcall). simpl. lia.
Qed.

End ODEIntegrationComp.

(** * A concrete scalar model and example configurations *)

(** NumPy [float64] values without rounding: the rationals, the two
    infinities and not-a-number.  Division by zero yields an infinity or
    not-a-number, as NumPy scalars do (with a warning), and zero is
    unsigned. *)
Inductive xfloat : Type :=
| Fin (q : Q)
| PInf
| NInf
| NaN.

#[export] Instance Q_eq_dec : EqDecision Q.
Proof. solve_decision. Defined.

#[export] Instance xfloat_eq_dec : EqDecision xfloat.
Proof. solve_decision. Defined.

Definition xinf (negative : bool) : xfloat := if negative then NInf else PInf.

(** The sign of a value, [true] for negative; zero counts as positive. *)
Definition xneg_sign (a : xfloat) : bool :=
  match a with
  | Fin q => (Qnum q <? 0)%Z
  | NInf => true
  | _ => false
  end.

Definition xis_zero (a : xfloat) : bool :=
  match a with Fin q => (Qnum q =? 0)%Z | _ => false end.

Definition xadd (a b : xfloat) : xfloat :=
  match a, b with
  | NaN, _ | _, NaN => NaN
  | PInf, NInf | NInf, PInf => NaN
  | PInf, _ | _, PInf => PInf
  | NInf, _ | _, NInf => NInf
  | Fin p, Fin q => Fin (Qred (Qplus p q))
  end.

Definition xopp (a : xfloat) : xfloat :=
  match a with
  | Fin q => Fin (Qred (Qopp q))
  | PInf => NInf
  | NInf => PInf
  | NaN => NaN
  end.

Definition xsub (a b : xfloat) : xfloat := xadd a (xopp b).

Definition xmul (a b : xfloat) : xfloat :=
  match a, b with
  | NaN, _ | _, NaN => NaN
  | Fin p, Fin q => Fin (Qred (Qmult p q))
  | _, _ =>
      if xis_zero a || xis_zero b then NaN
      else xinf (xorb (xneg_sign a) (xneg_sign b))
  end.

Definition xdiv (a b : xfloat) : xfloat :=
  match a, b with
  | NaN, _ | _, NaN => NaN
  | Fin p, Fin q =>
      if xis_zero b then (if xis_zero a then NaN else xinf (xneg_sign a))
      else Fin (Qred (Qdiv p q))
  | Fin _, _ => Fin 0%Q
  | _, Fin _ => xinf (xorb (xneg_sign a) (xneg_sign b))
  | _, _ => NaN
  end.


(** The float of an integer literal. *)
Definition xint (z : Z) : xfloat := Fin (inject_Z z).

Definition xzero : xfloat := xint 0.
Definition xone : xfloat := xint 1.
Definition xhalf : xfloat := Fin (1 # 2)%Q.

(** A two-segment grid with three nodes per segment. *)
Definition grid2 : GridData :=
  {| num_segments := 2;
     segment_ends := [xint (-1); xint 0; xint 1];
     node_ptau := [xint (-1); Fin (-1 # 2)%Q; xint 0;
                   xint 0; Fin (1 # 2)%Q; xint 1];
     segment_indices := [(0, 3); (3, 6)];
     subset_num_nodes_control_input := 5;
     subset_node_indices_control_input := [0; 1; 2; 4; 5];
     subset_num_nodes_all := 6;
     subset_num_nodes_per_segment_all := [3; 3] |}.

Definition scalar_options : OptionsDictionary := {| shape := [1]; order := 0 |}.

(** Two scalar states, a parameter of shape [(2,)], a scalar control and a
    scalar polynomial control of order one. *)
Definition cfg2 : Config :=
  {| time_name := "time";
     state_options := [("x", scalar_options); ("v", scalar_options)];
     parameter_options := [("k", {| shape := [2]; order := 0 |})];
     control_options := [("u", scalar_options)];
     polynomial_control_options := [("w", {| shape := [1]; order := 1 |})];
     input_grid_data := grid2;
     output_grid_data := None;
     standalone_mode := true;
     propagate_derivs_option := true |}.

(** The linear decay [dx/dt = -x] for [n_x] states and [n_theta] ODE
    parameters, with its Jacobians, as an ODE evaluator. *)
Definition ode_decay (n_x n_theta : nat) (seg : nat) (x : ndarray) (t : xfloat)
    (theta : list xfloat) : ndarray * ndarray * ndarray * ndarray :=
  (tabulate n_x 1 (fun i _ => xopp (nd_at xzero x 0 i)),
   tabulate n_x n_x (fun i j => if decide (i = j) then xint (-1) else xzero),
   np_zeros xzero n_x 1,
   np_zeros xzero n_x n_theta).

(** Explicit Euler steps from one requested time to the next. *)
Fixpoint euler (fn : xfloat → list xfloat → res (list xfloat)) (t : xfloat)
    (y : list xfloat) (ts : list xfloat) : res (list (list xfloat)) :=
  match ts with
  | [] => Ok []
  | t' :: ts =>
      dy ← fn t y;
      let y' := zip_with (fun a d => xadd a (xmul (xsub t' t) d)) y dy in
      rows ← euler fn t' y' ts;
      Ok (y' :: rows)
  end.

(** A fixed-step stand-in for the IVP solver. *)
Definition solve_ivp_euler (fn : xfloat → list xfloat → res (list xfloat))
    (t_span : xfloat * xfloat) (t_eval y0 : list xfloat) : res OdeResult :=
  rows ← euler fn t_span.1 y0 t_eval;
  Ok {| sol_t := t_eval;
        sol_y_T := {| nd_shape := (length t_eval, length y0);
                      nd_data := concat rows |} |}.

#[export] Instance Q_countable : Countable Q.
Proof.
  apply (inj_countable' (fun q => (Qnum q, Qden q)) (fun p => Qmake p.1 p.2)).
  by intros [].
Defined.

#[export] Instance xfloat_countable : Countable xfloat.
Proof.
  apply (inj_countable'
           (fun a => match a with
                     | Fin q => inl q
                     | PInf => inr 0 | NInf => inr 1 | NaN => inr 2
                     end)
           (fun s => match s with
                     | inl q => Fin q
                     | inr 0 => PInf | inr 1 => NInf | inr _ => NaN
                     end)).
  by intros [].
Defined.

(** The binary digits of a positive number. *)
Fixpoint digits (p : positive) : string :=
  match p with
  | xH => ""
  | xO p => String (Ascii.ascii_of_nat 48) (digits p)
  | xI p => String (Ascii.ascii_of_nat 49) (digits p)
  end.

(** A collision-free fingerprint of the inputs. *)
Definition hash_exact (inputs : gmap string (list xfloat)) : string :=
  String (Ascii.ascii_of_nat 104) (digits (encode inputs)).

(** One segment with nodes at [-1, 0, 1]. *)
Definition grid1 : GridData :=
  {| num_segments := 1;
     segment_ends := [xint (-1); xint 1];
     node_ptau := [xint (-1); xint 0; xint 1];
     segment_indices := [(0, 3)];
     subset_num_nodes_control_input := 3;
     subset_node_indices_control_input := [0; 1; 2];
     subset_num_nodes_all := 3;
     subset_num_nodes_per_segment_all := [3] |}.

(** A single scalar state, no parameters and no controls. *)
Definition cfg1 (derivs : bool) : Config :=
  {| time_name := "time";
     state_options := [("x", scalar_options)];
     parameter_options := [];
     control_options := [];
     polynomial_control_options := [];
     input_grid_data := grid1;
     output_grid_data := None;
     standalone_mode := true;
     propagate_derivs_option := derivs |}.

(** The same state over the two-segment grid. *)
Definition cfg1_two_segments : Config :=
  {| time_name := "time";
     state_options := [("x", scalar_options)];
     parameter_options := [];
     control_options := [];
     polynomial_control_options := [];
     input_grid_data := grid2;
     output_grid_data := None;
     standalone_mode := true;
     propagate_derivs_option := true |}.

(** The component a configuration gives. *)
Definition configured (cfg : Config) : Comp :=
  match configure xzero xone (__init__ cfg) with
  | Ok self => self
  | Raise _ => __init__ cfg
  end.

(** [x(0) = 1], [t_initial = 0] and the given duration. *)
Definition inputs1 (t_duration : xfloat) : gmap string (list xfloat) :=
  <["states:x" := [xone]]>
    (<["t_initial" := [xzero]]> (<["t_duration" := [t_duration]]> ∅)).

Definition propagate1 (self : Comp) (inputs : gmap string (list xfloat))
    (derivs : bool) :=
  _propagate xzero xone xhalf xadd xmul xdiv (ode_decay 1 2) solve_ivp_euler
    self inputs (Some derivs) None None None None.

Definition compute1 (self : Comp) (inputs : gmap string (list xfloat)) :=
  compute xzero xone xhalf xadd xsub xmul xdiv (ode_decay 1 2)
    solve_ivp_euler hash_exact self inputs.

Definition compute_partials1 (self : Comp)
    (inputs : gmap string (list xfloat)) :=
  compute_partials xzero xone xhalf xadd xmul xdiv (ode_decay 1 2)
    solve_ivp_euler hash_exact self inputs.

(** * The layout and the column map on concrete configurations *)

Lemma cfg2_wf : Config_wf cfg2.
Proof.
  constructor; simpl.
  1-4: repeat (apply NoDup_cons_2;
         [rewrite ?elem_of_cons, elem_of_nil; intros Hin;
          decompose [or] Hin; done|]); apply NoDup_nil_2.
  - reflexivity.
  - repeat (constructor; [lia|]). constructor.
Defined.

Lemma layout_complete_witness :
  Config_wf cfg2
  ∧ ∃ self st lx ltheta lz,
      configure xzero xone (__init__ cfg2) = Ok self ∧ storage self = Some st
      ∧ theta_size self = 2 + 2 + 5 + 2
      ∧ z_size self = x_size self + theta_size self
      ∧ x_layout self = Some lx ∧ tiles 0 lx (x_size self)
      ∧ theta_layout self st = Some ltheta ∧ tiles 0 ltheta (theta_size self)
      ∧ z_layout self st = Some lz ∧ tiles 0 lz (z_size self)
      ∧ lz = lx ++ map (fun s : slice => (x_size self + s.1, x_size self + s.2))
                       ltheta.
Proof.
  split; [exact cfg2_wf|]. exact (layout_complete xzero xone cfg2 cfg2_wf).
Defined.

(** ** The column map with a state of shape [(2,)] *)



(** * A zero duration, in the concrete scalar model *)

Section ZeroDuration.

Variable eval_ode : nat → @ndarray xfloat → xfloat → list xfloat
                    → @ndarray xfloat * @ndarray xfloat
                      * @ndarray xfloat * @ndarray xfloat.
Variable solve_ivp : (xfloat → list xfloat → res (list xfloat))
                     → xfloat * xfloat → list xfloat → list xfloat
                     → res (@OdeResult xfloat).


(** [1. / 0.] is infinite. *)
Lemma xdiv_one_zero : xdiv xone xzero = PInf.
Proof. reflexivity. Qed.


End ZeroDuration.

(** * The properties on the concrete model *)

(** The storage of a configured component. *)
Definition storage_of (self : Comp) : Storage :=
  match storage self with
  | Some st => st
  | None =>
      {| _state_idxs_in_z := ∅; _parameter_idxs_in_z := ∅;
         _parameter_idxs_in_theta := ∅; _control_idxs_in_z := ∅;
         _control_idxs_in_theta := ∅; _polynomial_control_idxs_in_z := ∅;
         _polynomial_control_idxs_in_theta := ∅; _nnps := [];
         _t_out := np_zeros xzero 0 0; _x_out := np_zeros xzero 0 0;
         _dx_dz_out := None; _dt_dz_out := None; _partial_dx_dz_idxs := ∅;
         _dx_dz_0 := np_zeros xzero 0 0; _dt_dz_0 := np_zeros xzero 0 0;
         _dtheta_dz := np_zeros xzero 0 0 |}
  end.

Lemma configured_spec cfg :
  Config_wf cfg →
  Configured xzero xone cfg (configured cfg) (storage_of (configured cfg)).
Proof.
  intros Hwf. destruct (configure_init xzero xone cfg Hwf) as (self & st & Hc & H).
  unfold configured. rewrite Hc. unfold storage_of.
  by rewrite (cfd_storage _ _ _ _ _ H).
Qed.

Lemma cfg1_wf derivs : Config_wf (cfg1 derivs).
Proof.
  constructor; simpl.
  1-4: repeat (apply NoDup_cons_2;
         [rewrite ?elem_of_cons, elem_of_nil; intros Hin;
          decompose [or] Hin; done|]); apply NoDup_nil_2.
  - reflexivity.
  - repeat (constructor; [lia|]). constructor.
Qed.

Lemma cfg1_two_segments_wf : Config_wf cfg1_two_segments.
Proof.
  constructor; simpl.
  1-4: repeat (apply NoDup_cons_2;
         [rewrite ?elem_of_cons, elem_of_nil; intros Hin;
          decompose [or] Hin; done|]); apply NoDup_nil_2.
  - reflexivity.
  - repeat (constructor; [lia|]). constructor.
Qed.



Lemma segments_chained_witness :
  let r := propagate1 (configured cfg1_two_segments) (inputs1 xone) true in
  let calls := solver_calls r.1 in
  is_ok r.2 = true
  ∧ length calls = 2
  ∧ ∃ c1 c2 sol,
      calls !! 0 = Some c1 ∧ calls !! 1 = Some c2
      ∧ sc_segment c1 = 0 ∧ sc_segment c2 = 1
      ∧ sc_result c1 = Ok sol
      ∧ nd_last_row xzero (sol_y_T sol) = Ok (sc_y0 c2)
      ∧ sc_y0 c2 = [Fin (9 # 16); Fin (9 # 16); xzero; Fin (-3 # 8);
                    xzero; xone; Fin (1 # 2)].
Proof.
  cbv zeta.
  pose proof (segments_chained xzero xone xhalf xadd xmul xdiv (ode_decay 1 2)
                solve_ivp_euler (configured cfg1_two_segments) (inputs1 xone)
                (Some true) None None None None) as H.
  cbv zeta in H. fold (propagate1 (configured cfg1_two_segments)
                         (inputs1 xone) true) in H.
  destruct H as (Hidx & Hnext & Hlen).
  assert (Hok : is_ok (propagate1 (configured cfg1_two_segments)
                         (inputs1 xone) true).2 = true)
    by (vm_compute; reflexivity).
  split; [exact Hok|]. split; [exact (Hlen Hok)|].
  destruct (solver_calls _ !! 0) as [c1|] eqn:H0;
    [|vm_compute in H0; discriminate].
  destruct (solver_calls _ !! 1) as [c2|] eqn:H1;
    [|vm_compute in H1; discriminate].
  destruct (Hnext 0 c1 c2 H0 H1) as (sol & Hsol & Hlast).
  exists c1, c2, sol.
  split; [reflexivity|]. split; [reflexivity|].
  split; [exact (proj1 (Hidx 0 c1 H0))|].
  split; [exact (proj1 (Hidx 1 c2 H1))|].
  split; [exact Hsol|]. split; [exact Hlast|].
  vm_compute in H1. injection H1 as <-. vm_compute. reflexivity.
Defined.

Lemma initial_augmented_state_witness :
  let self := configured (cfg1 true) in
  let st := storage_of self in
  let inputs := inputs1 (xint 2) in
  Config_wf (cfg1 true)
  ∧ Configured xzero xone (cfg1 true) self st
  ∧ default (propagate_derivs_option (cfg1 true)) (Some true) = true
  ∧ ∃ c,
      head (solver_calls (propagate1 self inputs true).1) = Some c
      ∧ sc_y0 c = [xone; xone; xzero; xzero; xzero; xone; xzero]
      ∧ np_slice (sc_y0 c) None (Some 1%Z) = concat [[xone]]
      ∧ np_reshape (np_slice (sc_y0 c) (Some 1%Z) (Some 4%Z)) 1 3
        = Ok (tabulate 1 3 (fun i j => if decide (i = j) then xone else xzero))
      ∧ np_slice (sc_y0 c) (Some (-3)%Z) None = unit_vector xzero xone 3 1.
Proof.
  cbv zeta.
  pose proof (configured_spec (cfg1 true) (cfg1_wf true)) as Hc.
  split; [exact (cfg1_wf true)|]. split; [exact Hc|]. split; [reflexivity|].
  destruct (head (solver_calls (propagate1 (configured (cfg1 true))
                                  (inputs1 (xint 2)) true).1))
    as [c|] eqn:Hhead; [|vm_compute in Hhead; discriminate].
  exists c. split; [reflexivity|].
  pose proof (initial_augmented_state xzero xone xhalf xadd xmul xdiv
                (ode_decay 1 2) solve_ivp_euler (cfg1 true)
                (configured (cfg1 true)) (storage_of (configured (cfg1 true)))
                (inputs1 (xint 2)) (Some true) None None None None c
                (cfg1_wf true) Hc eq_refl Hhead) as H.
  cbv zeta in H. destruct H as (x0 & Hx0 & Hcat & Hb1 & Hb2 & Hb3).
  assert (Hx : x0 = concat [[xone]]).
  { apply Hcat. repeat constructor. }
  rewrite Hx in Hb1. clear Hx Hcat Hx0.
  split; [vm_compute in Hhead; injection Hhead as <-; reflexivity|].
  split; [exact Hb1|]. split; [exact Hb2|]. exact Hb3.
Defined.

Lemma segment_node_times_witness :
  let self := configured cfg1_two_segments in
  let inputs := inputs1 (xint 2) in
  ∃ c,
    solver_calls (propagate1 self inputs true).1 !! 1 = Some c
    ∧ get_input inputs "t_initial" = Ok [xzero]
    ∧ get_input inputs "t_duration" = Ok [xint 2]
    ∧ segment_indices grid2 !! 1 = Some (3, 6)
    ∧ sc_t_eval c
      = map (fun ptau => xadd xzero (xmul (xmul xhalf (xadd ptau xone)) (xint 2)))
          [xint 0; Fin (1 # 2); xint 1]
    ∧ sc_t_eval c = [xint 1; Fin (3 # 2); xint 2]
    ∧ sc_t_span c = (xint 1, xint 2).
Proof.
  cbv zeta.
  destruct (solver_calls (propagate1 (configured cfg1_two_segments)
                            (inputs1 (xint 2)) true).1 !! 1)
    as [c|] eqn:Hk; [|vm_compute in Hk; discriminate].
  exists c. split; [reflexivity|].
  destruct (segment_node_times xzero xone xhalf xadd xmul xdiv (ode_decay 1 2)
              solve_ivp_euler (configured cfg1_two_segments)
              (inputs1 (xint 2)) (Some true) None None None None 1 c Hk)
    as (ti & td & seg & Hti & Htd & Hseg & Heval & Hhead & Hlast).
  vm_compute in Hti. injection Hti as <-.
  vm_compute in Htd. injection Htd as <-.
  vm_compute in Hseg. injection Hseg as <-.
  split; [reflexivity|]. split; [reflexivity|]. split; [reflexivity|].
  split; [exact Heval|].
  assert (He : sc_t_eval c = [xint 1; Fin (3 # 2); xint 2])
    by (rewrite Heval; vm_compute; reflexivity).
  split; [exact He|].
  rewrite He in Hhead, Hlast. cbn in Hhead, Hlast.
  destruct (sc_t_span c) as [t0 t1]. cbn in Hhead, Hlast. congruence.
Defined.

Lemma digits_inj p q : digits p = digits q → p = q.
Proof.
  revert q. induction p as [p IH|p IH|]; intros [q|q|]; simpl;
    intros H; try discriminate; try reflexivity;
    injection H as H; f_equal; by apply IH.
Qed.

Lemma hash_exact_inj i1 i2 : hash_exact i1 = hash_exact i2 → i1 = i2.
Proof.
  unfold hash_exact. intros H. injection H as H.
  apply digits_inj in H. by apply (inj encode) in H.
Qed.

Lemma hash_exact_nonempty i : hash_exact i ≠ "".
Proof. done. Qed.

Lemma cache_correct_witness :
  let self := configured (cfg1 true) in
  let inputs := inputs1 xone in
  let inputs' := <["states:x" := <[0 := xint 2]> [xone]]> inputs in
  (∀ i1 i2, hash_exact i1 = hash_exact i2 → i1 = i2)
  ∧ (∀ i, hash_exact i ≠ "")
  ∧ _inputs_cache self = ""
  ∧ ∃ log1 self1 out1,
      compute1 self inputs = (log1, Ok (self1, out1))
      ∧ propagations log1 = 1
      ∧ propagations (compute1 self1 inputs).1 = 0
      ∧ propagations log1 + propagations (compute_partials1 self1 inputs).1 ≤ 1
      ∧ hash_exact inputs' ≠ hash_exact inputs
      ∧ propagations (compute1 self1 inputs').1 = 1
      ∧ length (solver_calls (compute1 self1 inputs').1) = 1.
Proof.
  cbv zeta.
  split; [exact hash_exact_inj|]. split; [exact hash_exact_nonempty|].
  split; [reflexivity|].
  destruct (cache_correct xzero xone xhalf xadd xsub xmul xdiv (ode_decay 1 2)
              solve_ivp_euler hash_exact hash_exact_inj hash_exact_nonempty)
    as (H1 & H2 & H3).
  destruct (compute1 (configured (cfg1 true)) (inputs1 xone))
    as [log1 [[self1 out1]|e]] eqn:Hrun; [|vm_compute in Hrun; discriminate].
  exists log1, self1, out1. split; [reflexivity|].
  destruct (H2 (configured (cfg1 true)) (inputs1 xone) log1 self1 out1
              eq_refl Hrun) as [Ha Hb].
  split; [exact Ha|]. split; [exact Hb|].
  split; [exact (H1 (configured (cfg1 true)) (inputs1 xone) _ _ _ Hrun)|].
  destruct (H3 (configured (cfg1 true)) (inputs1 xone) log1 self1 out1
              "states:x" [xone] 0 xone (xint 2) Hrun
              eq_refl eq_refl) as (Hc & Hd & He); [discriminate|].
  split; [exact Hc|]. split; [exact Hd|].
  apply He. revert Hrun. unfold compute1. intros Hrun.
  vm_compute in Hrun. injection Hrun as <- <- <-.
  vm_compute. reflexivity.
Defined.




(** The two-segment grid as input grid, the one-segment grid as output
    grid. *)
Definition cfg_misaligned : Config :=
  {| time_name := "time";
     state_options := [("x", scalar_options)];
     parameter_options := [];
     control_options := [];
     polynomial_control_options := [];
     input_grid_data := grid2;
     output_grid_data := Some grid1;
     standalone_mode := true;
     propagate_derivs_option := true |}.

Lemma cfg_misaligned_wf : Config_wf cfg_misaligned.
Proof.
  constructor; simpl.
  1-4: repeat (apply NoDup_cons_2;
         [rewrite ?elem_of_cons, elem_of_nil; intros Hin;
          decompose [or] Hin; done|]); apply NoDup_nil_2.
  - reflexivity.
  - repeat (constructor; [lia|]). constructor.
Qed.

Lemma setup_alignment_check_witness :
  Config_wf cfg_misaligned
  ∧ segment_ends (_input_grid_data cfg_misaligned)
    ≠ segment_ends (_output_grid_data cfg_misaligned)
  ∧ (setup xzero xone (__init__ cfg_misaligned)).2 = Raise RuntimeError
  ∧ alignment_checks (setup xzero xone (__init__ cfg_misaligned)).1 = 1
  ∧ alignment_checks
      (compute1 (configured (cfg1 true)) (inputs1 xone)).1 = 0.
Proof.
  destruct (setup_alignment_check xzero xone xhalf xadd xsub xmul xdiv
              (ode_decay 1 2) solve_ivp_euler hash_exact cfg_misaligned
              cfg_misaligned_wf) as (_ & Hraise & Hone & _ & Hcompute).
  assert (Hne : segment_ends (_input_grid_data cfg_misaligned)
                ≠ segment_ends (_output_grid_data cfg_misaligned))
    by discriminate.
  split; [exact cfg_misaligned_wf|]. split; [exact Hne|].
  split; [exact (proj2 Hraise Hne)|]. split; [exact Hone|].
  exact (proj1 (Hcompute (configured (cfg1 true)) (inputs1 xone))).
Defined.


(** * Further properties on concrete configurations *)

(** A state of shape [(2,)] and a scalar state, a parameter of shape
    [(3,)], a scalar control and a polynomial control of order two. *)
Definition states3 : catalog :=
  [("x", {| shape := [2]; order := 0 |}); ("v", scalar_options)].
Definition params3 : catalog := [("k", {| shape := [3]; order := 0 |})].
Definition controls3 : catalog := [("u", scalar_options)].
Definition pcs3 : catalog := [("w", {| shape := [1]; order := 2 |})].

Lemma catalogs3_NoDup :
  NoDup (names states3) ∧ NoDup (names params3) ∧ NoDup (names controls3)
  ∧ NoDup (names pcs3).
Proof.
  repeat split;
    repeat (apply NoDup_cons_2;
            [rewrite ?elem_of_cons, elem_of_nil; intros Hin;
             decompose [or] Hin; done|]); apply NoDup_nil_2.
Defined.

Lemma column_map_tiles_witness :
  let r := _build_dx_dz_idxs_counted states3 params3 controls3 pcs3 5 in
  let keys := column_map_keys states3 params3 controls3 pcs3 in
  (NoDup (names states3) ∧ NoDup (names params3) ∧ NoDup (names controls3)
   ∧ NoDup (names pcs3))
  ∧ dom r.2 = list_to_set keys
  ∧ r.2 = _build_dx_dz_idxs states3 params3 controls3 pcs3 5
  ∧ r.1 = py_sum (map (output_width states3 params3 controls3 pcs3 5) states3)
  ∧ ∃ sels,
      mapM (fun key => r.2 !! key) keys = Some sels
      ∧ length sels = length keys
      ∧ tiles 0 (map colsel_range sels) r.1.
Proof.
  cbv zeta. split; [exact catalogs3_NoDup|].
  destruct catalogs3_NoDup as (Hs & Hp & Hc & Hpc).
  exact (column_map_tiles states3 params3 controls3 pcs3 5 Hs Hp Hc Hpc).
Defined.

Lemma configured_ok cfg :
  Config_wf cfg → configure xzero xone (__init__ cfg) = Ok (configured cfg).
Proof.
  intros Hwf. unfold configured.
  by destruct (configure_init xzero xone cfg Hwf) as (self & st & -> & _).
Qed.

Lemma idxs_consistent_witness :
  let self := configured cfg2 in
  configure xzero xone (__init__ cfg2) = Ok self
  ∧ ∃ st,
      storage self = Some st
      ∧ _parameter_idxs_in_theta st = shift 2 <$> parameter_idxs self
      ∧ _parameter_idxs_in_z st
        = shift (x_size self) <$> _parameter_idxs_in_theta st
      ∧ _control_idxs_in_z st
        = shift (x_size self) <$> _control_idxs_in_theta st
      ∧ _polynomial_control_idxs_in_z st
        = shift (x_size self) <$> _polynomial_control_idxs_in_theta st
      ∧ _state_idxs_in_z st = state_idxs self.
Proof.
  cbv zeta. pose proof (configured_ok cfg2 cfg2_wf) as H.
  split; [exact H|]. exact (idxs_consistent xzero xone cfg2 _ H).
Defined.

(** Inputs for the configuration [cfg2], each at its declared size. *)
Definition inputs2 : gmap string (list xfloat) :=
  <["states:x" := [xone]]>
    (<["states:v" := [xzero]]>
       (<["t_initial" := [xzero]]>
          (<["t_duration" := [xone]]>
             (<["parameters:k" := [xone; xhalf]]>
                (<["controls:u" := [xone; xone; xhalf; xzero; xzero]]>
                   (<["polynomial_controls:w" := [xhalf; xone]]> ∅)))))).

Definition propagate2 (pd : option bool) :=
  _propagate xzero xone xhalf xadd xmul xdiv (ode_decay 2 11) solve_ivp_euler
    (configured cfg2) inputs2 pd None None None None.

Lemma theta_packed_witness :
  let self := configured cfg2 in
  let st := storage_of self in
  let r := propagate2 None in
  let theta := [xzero; xone] ++ [xone; xhalf]
               ++ [xone; xone; xhalf; xzero; xzero] ++ [xhalf; xone] in
  Config_wf cfg2 ∧ Configured xzero xone cfg2 self st
  ∧ (∀ k c, solver_calls r.1 !! k = Some c →
            sc_theta c = theta ∧ length (sc_theta c) = theta_size self)
  ∧ solver_calls r.1 ≠ [].
Proof.
  cbv zeta.
  pose proof (configured_spec cfg2 cfg2_wf) as Hc.
  split; [exact cfg2_wf|]. split; [exact Hc|].
  destruct (theta_packed xzero xone xhalf xadd xmul xdiv
              (ode_decay 2 11) solve_ivp_euler cfg2 _ _ inputs2 xzero xone
              [[xone]; [xzero]] [[xone; xhalf]]
              [[xone; xone; xhalf; xzero; xzero]] [[xhalf; xone]]
              None None None None None cfg2_wf Hc) as [H1 H2];
    try reflexivity.
  1-4: repeat (constructor; [split; reflexivity|]); constructor.
  split; [exact H1|].
  apply (H2 (0, 3)); [simpl; lia|reflexivity|discriminate].
Defined.

(** Inputs without [t_duration]. *)
Definition inputs_no_duration : gmap string (list xfloat) :=
  <["states:x" := [xone]]> (<["t_initial" := [xzero]]> ∅).

Lemma propagate_missing_input_witness :
  let self := configured (cfg1 true) in
  let inputs := inputs_no_duration in
  let r := propagate1 self inputs true in
  "t_duration" ∈ z_input_names (state_options (config self))
                   (parameter_options (config self))
                   (control_options (config self))
                   (polynomial_control_options (config self))
  ∧ inputs !! "t_duration" = None
  ∧ is_ok r.2 = false
  ∧ r.1 = [EvPropagate true]
  ∧ solver_calls r.1 = [].
Proof.
  cbv zeta.
  assert (Hin : "t_duration"
                ∈ z_input_names (state_options (config (configured (cfg1 true))))
                    (parameter_options (config (configured (cfg1 true))))
                    (control_options (config (configured (cfg1 true))))
                    (polynomial_control_options
                       (config (configured (cfg1 true))))).
  { apply (list_elem_of_lookup_2 _ 2). reflexivity. }
  split; [exact Hin|]. split; [reflexivity|].
  exact (propagate_missing_input xzero xone xhalf xadd xmul xdiv
           (ode_decay 1 2) solve_ivp_euler (configured (cfg1 true))
           inputs_no_duration
           (Some true) None None None None "t_duration" Hin eq_refl).
Defined.

Lemma compute_partials_without_buffers_witness :
  let self := configured (cfg1 false) in
  let st := storage_of self in
  let inputs := inputs1 xone in
  let r := compute_partials1 self inputs in
  storage self = Some st ∧ _dt_dz_out st = None
  ∧ is_ok r.2 = false
  ∧ propagate_calls r.1 = [true]
  ∧ r.2 = Raise TypeError.
Proof.
  cbv zeta.
  pose proof (configured_spec (cfg1 false) (cfg1_wf false)) as Hc.
  pose proof (cfd_storage _ _ _ _ _ Hc) as Hst.
  assert (Hnone : _dt_dz_out (storage_of (configured (cfg1 false))) = None)
    by (by rewrite (cfd_dt_dz_out _ _ _ _ _ Hc)).
  destruct (compute_partials_without_buffers xzero xone xhalf xadd xmul xdiv
              (ode_decay 1 2) solve_ivp_euler hash_exact
              (configured (cfg1 false)) _ (inputs1 xone) Hst Hnone)
    as (H1 & H2 & _ & H4).
  split; [exact Hst|]. split; [exact Hnone|]. split; [exact H1|].
  split.
  - apply H2. rewrite (cfd_cache _ _ _ _ _ Hc). apply hash_exact_nonempty.
  - apply H4. vm_compute. reflexivity.
Defined.


(** Two segments, the second without nodes. *)
Definition grid_empty_segment : GridData :=
  {| num_segments := 2;
     segment_ends := [xint (-1); xint 0; xint 1];
     node_ptau := [xint (-1); xint 0; xint 1];
     segment_indices := [(0, 3); (3, 3)];
     subset_num_nodes_control_input := 3;
     subset_node_indices_control_input := [0; 1; 2];
     subset_num_nodes_all := 3;
     subset_num_nodes_per_segment_all := [3; 0] |}.

Definition cfg_empty_segment : Config :=
  {| time_name := "time";
     state_options := [("x", scalar_options)];
     parameter_options := [];
     control_options := [];
     polynomial_control_options := [];
     input_grid_data := grid_empty_segment;
     output_grid_data := None;
     standalone_mode := true;
     propagate_derivs_option := true |}.

Lemma segment_without_nodes_witness :
  let self := configured cfg_empty_segment in
  let r := propagate1 self (inputs1 xone) true in
  1 < num_segments (_output_grid_data (config self))
  ∧ segment_indices (_output_grid_data (config self)) !! 1 = Some (3, 3)
  ∧ is_ok r.2 = false
  ∧ length (solver_calls r.1) ≤ 1
  ∧ (∀ c, c ∈ solver_calls r.1 → sc_segment c < 1)
  ∧ length (solver_calls r.1) = 1.
Proof.
  cbv zeta.
  assert (H1 : 1 < num_segments
                     (_output_grid_data (config (configured cfg_empty_segment))))
    by (vm_compute; lia).
  split; [exact H1|]. split; [reflexivity|].
  destruct (segment_without_nodes xzero xone xhalf xadd xmul xdiv
              (ode_decay 1 2) solve_ivp_euler (configured cfg_empty_segment)
              (inputs1 xone) (Some true) None None None None 1 (3, 3)
              H1 eq_refl eq_refl) as (Ha & Hb & Hc).
  split; [exact Ha|]. split; [exact Hb|]. split; [exact Hc|].
  vm_compute. reflexivity.
Defined.
